(** * Image pipeline: the Lambda image processor

    A shallow embedding of [lambda/image-processor/lambda_function.py]:
    the size table [SIZES], [resize_image], [process_image],
    [send_notification] and [lambda_handler], together with the part of
    Pillow, S3 and SNS that the handler's behaviour depends on. *)

From Stdlib Require Import ZArith QArith Qround Qabs Lia.
From stdpp Require Import gmap strings list pretty.

Local Open Scope Z_scope.

(** ** Pillow: the size computed by [Image.thumbnail]

    [Image.thumbnail(size, resample)] belongs to Pillow, not to this
    repository.  The handler names [Image.Resampling.LANCZOS], which exists
    from Pillow 9.1 on, so the size rule is the one of those releases
    ([preserve_aspect_ratio] with [round_aspect]).  Pillow evaluates it in
    binary64.  Here the quotients are exact rationals, which order the two
    keys of [round_aspect] as binary64 does whenever they differ; when they
    are exactly equal the order binary64 finds is a matter of its rounding,
    and the answer is an argument, [tie_floor]. *)
Module Pillow.

(** [max(min(math.floor(number), math.ceil(number), key=key), 1)]:
    Python's [min] keeps the first argument unless the second has a
    strictly smaller key.  [tie_floor] tells whether the floor is kept when
    the two keys are equal as rationals. *)
Definition round_aspect (tie_floor : bool) (number : Q) (key : Z -> Q) : Z :=
  let lo := Qfloor number in
  let hi := Qceiling number in
  Z.max (match (key lo ?= key hi)%Q with
         | Lt => lo
         | Eq => if tie_floor then lo else hi
         | Gt => hi
         end) 1.

(** The nested [preserve_aspect_ratio()]: [None] when the box already
    holds the image, the new size otherwise. *)
Definition preserve_aspect_ratio (tie_floor : bool) (provided_size : Z * Z)
  (width height : Z) : option (Z * Z) :=
  let '(x, y) := provided_size in
  if (x >=? width) && (y >=? height) then None
  else
    let aspect := (inject_Z width / inject_Z height)%Q in
    if Qle_bool aspect (inject_Z x / inject_Z y)%Q then
      Some (round_aspect tie_floor (inject_Z y * aspect)%Q
              (fun n => Qabs (aspect - inject_Z n / inject_Z y)%Q), y)
    else
      Some (x, round_aspect tie_floor (inject_Z x / aspect)%Q
                 (fun n => if n =? 0 then 0%Q
                           else Qabs (aspect - inject_Z x / inject_Z n)%Q)).

(** The size an image of size [size] has after [thumbnail(target)]:
    unchanged when [preserve_aspect_ratio] answers [None]. *)
Definition thumbnail_size (tie_floor : bool) (target : Z * Z) (size : Z * Z)
  : Z * Z :=
  match preserve_aspect_ratio tie_floor target (fst size) (snd size) with
  | None => size
  | Some s => s
  end.

End Pillow.

(** ** Python values used by the handler *)

Definition bytes := list Byte.byte.

(** [needle in haystack] on [str]. *)
Fixpoint contains (needle haystack : string) : bool :=
  String.prefix needle haystack
  || match haystack with
     | EmptyString => false
     | String _ rest => contains needle rest
     end.

(** A [dict] with [str] keys: insertion order is kept, and assigning to a
    key that is present replaces its value where it stands. *)
Fixpoint dict_set {V : Type} (k : string) (v : V) (d : list (string * V))
  : list (string * V) :=
  match d with
  | [] => [(k, v)]
  | (k', v') :: d' =>
      if String.eqb k' k then (k', v) :: d' else (k', v') :: dict_set k v d'
  end.

(** [str] of an [int], of a pair of them, and of an optional [str]. *)
Definition str_int (n : Z) : string := pretty n.

Definition str_size (s : Z * Z) : string :=
  "(" +:+ str_int (fst s) +:+ ", " +:+ str_int (snd s) +:+ ")".

Definition str_opt (o : option string) : string :=
  match o with Some s => s | None => "None" end.

(** [f"{s[0]}x{s[1]}"] *)
Definition fmt_dims (s : Z * Z) : string :=
  str_int (fst s) +:+ "x" +:+ str_int (snd s).

Definition dquote : string :=
  String (Ascii.Ascii false true false false false true false false) EmptyString.

(** [json.dumps] of a [str] made of plain printable characters. *)
Definition json_dumps (s : string) : string := dquote +:+ s +:+ dquote.

(** ** Configuration *)

(** [SIZES.items()], in the order the literal lists them. *)
Definition SIZES : list (string * (Z * Z)) :=
  [ ("thumbnail", (150, 150));
    ("mobile", (480, 480));
    ("web", (1024, 1024)) ].

(** ** Events, results and the handler's answer *)

(** One element of [event['Records']]: [record['s3']['bucket']['name']]
    and [record['s3']['object']['key']]. *)
Record S3Record := { bucket_name : string; object_key : string }.

(** The value stored in [results[size_name]]. *)
Record VariantInfo := { info_size : Z * Z; info_key : string }.

Record Response := { statusCode : Z; body : string }.

(** Exceptions raised by the collaborators. *)
Inductive Exn :=
| ClientError (code : string)      (* botocore: the service refused *)
| ParamValidationError             (* botocore: a required argument is None *)
| UnidentifiedImageError           (* Pillow: Image.open *)
| OSError (msg : string).          (* Pillow: Image.save *)

Definition str_exn (e : Exn) : string :=
  match e with
  | ClientError code => "An error occurred (" +:+ code +:+ ")"
  | ParamValidationError => "Parameter validation failed"
  | UnidentifiedImageError => "cannot identify image file"
  | OSError msg => msg
  end.

Inductive Level := INFO | ERROR.

(** What is stored under a (bucket, key) pair. *)
Record S3Object := {
  obj_body : bytes;
  obj_content_type : string;
  obj_metadata : list (string * string)
}.

(** Requests sent to S3 and SNS, as issued. *)
Inductive Call :=
| GetObject (bucket key : string)
| PutObject (bucket : option string) (key : string) (obj : S3Object)
| Publish (topic : option string) (subject message : string).

Definition is_get (c : Call) : bool :=
  match c with GetObject _ _ => true | _ => false end.
Definition is_put (c : Call) : bool :=
  match c with PutObject _ _ _ => true | _ => false end.
Definition is_publish (c : Call) : bool :=
  match c with Publish _ _ _ => true | _ => false end.

Definition put_key (c : Call) : option string :=
  match c with PutObject _ k _ => Some k | _ => None end.

(** ** Images, the process state and the monad of the handler *)

(** A Pillow image object: [format], [mode], [size] and its raster. *)
Record Image := {
  im_format : option string;
  im_mode : string;
  im_size : Z * Z;
  im_data : bytes
}.

(** Image objects are mutable and reached through references: [heap] holds
    them by address.  [s3] is the object store, [calls] the requests issued
    so far, [outbox] the notifications SNS accepted, [logs] what the logger
    received and [clock] the number of times the time was read. *)
Record State := {
  s3 : gmap (string * string) S3Object;
  heap : list Image;
  calls : list Call;
  outbox : list (string * string * string);
  logs : list (Level * string);
  clock : nat
}.

Definition set_s3 (f : gmap (string * string) S3Object -> gmap (string * string) S3Object)
  (st : State) : State :=
  {| s3 := f (s3 st); heap := heap st; calls := calls st;
     outbox := outbox st; logs := logs st; clock := clock st |}.
Definition set_heap (f : list Image -> list Image) (st : State) : State :=
  {| s3 := s3 st; heap := f (heap st); calls := calls st;
     outbox := outbox st; logs := logs st; clock := clock st |}.
Definition add_call (c : Call) (st : State) : State :=
  {| s3 := s3 st; heap := heap st; calls := calls st ++ [c];
     outbox := outbox st; logs := logs st; clock := clock st |}.
Definition add_outbox (n : string * string * string) (st : State) : State :=
  {| s3 := s3 st; heap := heap st; calls := calls st;
     outbox := outbox st ++ [n]; logs := logs st; clock := clock st |}.
Definition add_log (l : Level * string) (st : State) : State :=
  {| s3 := s3 st; heap := heap st; calls := calls st;
     outbox := outbox st; logs := logs st ++ [l]; clock := clock st |}.
Definition tick (st : State) : State :=
  {| s3 := s3 st; heap := heap st; calls := calls st;
     outbox := outbox st; logs := logs st; clock := S (clock st) |}.

Inductive Outcome (A : Type) :=
| Return (a : A)
| Raise (e : Exn).
Arguments Return {A} a.
Arguments Raise {A} e.

Definition M (A : Type) : Type := State -> Outcome A * State.

Definition ret {A} (a : A) : M A := fun st => (Return a, st).
Definition raise {A} (e : Exn) : M A := fun st => (Raise e, st).
Definition bind {A B} (m : M A) (k : A -> M B) : M B :=
  fun st =>
    match m st with
    | (Return a, st') => k a st'
    | (Raise e, st') => (Raise e, st')
    end.

(** [try: m except Exception as e: handler e] *)
Definition try_except {A} (m : M A) (handler : Exn -> M A) : M A :=
  fun st =>
    match m st with
    | (Return a, st') => (Return a, st')
    | (Raise e, st') => handler e st'
    end.

Declare Scope py_scope.
Delimit Scope py_scope with py.
Notation "'let*' x ':=' m 'in' k" := (bind m (fun x => k))
  (at level 10, x name, m at level 100, k at level 200) : py_scope.
Notation "m '>>' k" := (bind m (fun _ => k))
  (at level 100, k at level 200, right associativity) : py_scope.

Local Open Scope py_scope.

(** [for x in xs: acc = body acc x], the accumulator being the loop's
    local state. *)
Fixpoint for_fold {A B} (body : B -> A -> M B) (xs : list A) (acc : B) : M B :=
  match xs with
  | [] => ret acc
  | x :: xs' => let* acc' := body acc x in for_fold body xs' acc'
  end.

(** [for x in xs: body x] *)
Fixpoint for_each {A} (body : A -> M unit) (xs : list A) : M unit :=
  match xs with
  | [] => ret tt
  | x :: xs' => body x >> for_each body xs'
  end.

Definition logger_info (msg : string) : M unit :=
  fun st => (Return tt, add_log (INFO, msg) st).
Definition logger_error (msg : string) : M unit :=
  fun st => (Return tt, add_log (ERROR, msg) st).

Definition nl : string :=
  String (Ascii.Ascii false true false true false false false false) EmptyString.

(** ** The collaborators

    Pillow's decoder, raster operations and JPEG encoder, the two
    environment variables, the answers of S3 and SNS, and the rendering of
    the clock are outside the repository. *)
Record Env := {
  (** [Image.open(BytesIO(content))]; [None] when the bytes are not an
      image. *)
  image_open : bytes -> option Image;
  (** [Image.new('RGB', size, (255, 255, 255))] *)
  white_canvas : Z * Z -> bytes;
  (** [image.split()[-1]] *)
  alpha_band : Image -> bytes;
  (** [background.paste(image, mask=...)]: the new raster of the canvas. *)
  paste : bytes -> Image -> option bytes -> bytes;
  (** [resize(size, LANCZOS)]: the raster at the new size. *)
  lanczos : Image -> Z * Z -> bytes;
  (** In [thumbnail(target)] on an image of the given size (target first):
      whether binary64 keeps the floor in [round_aspect] when the keys of
      the floor and of the ceiling are equal as rationals. *)
  float_tie : Z * Z -> Z * Z -> bool;
  (** [save(buffer, format='JPEG', quality=85, optimize=True)]; [None] when
      the encoder refuses the image. *)
  jpeg_save : Z -> bool -> Image -> option bytes;
  (** [os.environ.get('PROCESSED_BUCKET')], [os.environ.get('SNS_TOPIC_ARN')] *)
  PROCESSED_BUCKET : option string;
  SNS_TOPIC_ARN : option string;
  (** Whether S3 lets the function read (bucket, key), and whether it
      accepts a write to it. *)
  s3_readable : string -> string -> bool;
  s3_writable : string -> string -> bool;
  (** Whether SNS accepts (topic, subject, message). *)
  sns_accepts : string -> string -> string -> bool;
  (** [isoformat()] of the time at the n-th reading of the clock. *)
  isoformat : nat -> string
}.

Section Handler.

Variable env : Env.

(** [datetime.utcnow().isoformat()] *)
Definition utcnow_isoformat : M string :=
  fun st => (Return (isoformat env (clock st)), tick st).

(** [s3_client.get_object(Bucket=bucket, Key=key)['Body'].read()] *)
Definition get_object (bucket key : string) : M bytes :=
  fun st =>
    let st' := add_call (GetObject bucket key) st in
    if s3_readable env bucket key then
      match s3 st !! (bucket, key) with
      | Some o => (Return (obj_body o), st')
      | None => (Raise (ClientError "NoSuchKey"), st')
      end
    else (Raise (ClientError "AccessDenied"), st').

(** [s3_client.put_object(Bucket=..., Key=..., Body=..., ContentType=...,
    Metadata=...)] *)
Definition put_object (bucket : option string) (key : string) (o : S3Object)
  : M unit :=
  fun st =>
    let st' := add_call (PutObject bucket key o) st in
    match bucket with
    | None => (Raise ParamValidationError, st')
    | Some b =>
        if s3_writable env b key
        then (Return tt, set_s3 (insert (b, key) o) st')
        else (Raise (ClientError "AccessDenied"), st')
    end.

(** [sns_client.publish(TopicArn=..., Subject=..., Message=...)] *)
Definition publish (topic : option string) (subject message : string)
  : M unit :=
  fun st =>
    let st' := add_call (Publish topic subject message) st in
    match topic with
    | None => (Raise ParamValidationError, st')
    | Some t =>
        if sns_accepts env t subject message
        then (Return tt, add_outbox (t, subject, message) st')
        else (Raise (ClientError "InvalidParameter"), st')
    end.

(** *** Image objects *)

Definition blank : Image :=
  {| im_format := None; im_mode := EmptyString; im_size := (0, 0);
     im_data := [] |}.

(** Reading through a reference.  Every reference the handler holds comes
    from [new_image], so the default is never read. *)
Definition deref (ref : nat) : M Image :=
  fun st => (Return (default blank (heap st !! ref)), st).

Definition new_image (im : Image) : M nat :=
  fun st => (Return (length (heap st)), set_heap (fun h => h ++ [im]) st).

Definition assign (ref : nat) (im : Image) : M unit :=
  fun st => (Return tt, set_heap (fun h => <[ref := im]> h) st).

(** [Image.open(BytesIO(image_content))] *)
Definition Image_open (content : bytes) : M nat :=
  match image_open env content with
  | Some im => new_image im
  | None => raise UnidentifiedImageError
  end.

(** [image.thumbnail(target_size, Image.Resampling.LANCZOS)]: the object
    behind [ref] is changed in place. *)
Definition thumbnail (ref : nat) (target_size : Z * Z) : M unit :=
  let* im := deref ref in
  match Pillow.preserve_aspect_ratio (float_tie env target_size (im_size im))
          target_size (fst (im_size im)) (snd (im_size im)) with
  | None => ret tt
  | Some size =>
      if decide (im_size im = size) then ret tt
      else assign ref {| im_format := im_format im; im_mode := im_mode im;
                         im_size := size; im_data := lanczos env im size |}
  end.

(** [image.save(buffer, format='JPEG', quality=85, optimize=True)] *)
Definition Image_save (ref : nat) : M bytes :=
  let* im := deref ref in
  match jpeg_save env 85 true im with
  | Some b => ret b
  | None => raise (OSError ("cannot write mode " +:+ im_mode im +:+ " as JPEG"))
  end.

(** *** The functions of [lambda_function.py] *)

Definition has_transparency (mode : string) : bool :=
  bool_decide (mode ∈ ["RGBA"; "LA"; "P"]).

(** [resize_image(image, target_size)].  For a mode with transparency the
    local name [image] is rebound to a new canvas; otherwise it keeps
    pointing at the caller's object, which [thumbnail] then changes. *)
Definition resize_image (image : nat) (target_size : Z * Z) : M nat :=
  let* im := deref image in
  let* image :=
    (if has_transparency (im_mode im) then
       let mask := if String.eqb (im_mode im) "RGBA"
                   then Some (alpha_band env im) else None in
       new_image {| im_format := None; im_mode := "RGB";
                    im_size := im_size im;
                    im_data := paste env (white_canvas env (im_size im)) im mask |}
     else ret image) in
  thumbnail image target_size >>
  ret image.

(** The body of the loop over [SIZES.items()] in [process_image]. *)
Definition process_variant (image : nat) (original_key : string)
  (original_size : Z * Z) (results : list (string * VariantInfo))
  (item : string * (Z * Z)) : M (list (string * VariantInfo)) :=
  let size_name := fst item in
  let dimensions := snd item in
  let* resized_image := resize_image image dimensions in
  let* buffer := Image_save resized_image in
  let processed_key := "processed/" +:+ size_name +:+ "/" +:+ original_key in
  let* resized := deref resized_image in
  let* now := utcnow_isoformat in
  put_object (PROCESSED_BUCKET env) processed_key
    {| obj_body := buffer;
       obj_content_type := "image/jpeg";
       obj_metadata :=
         [ ("original-size", fmt_dims original_size);
           ("processed-size", fmt_dims (im_size resized));
           ("variant", size_name);
           ("processed-date", now) ] |} >>
  let results :=
    dict_set size_name
      {| info_size := im_size resized; info_key := processed_key |} results in
  logger_info ("Created " +:+ size_name +:+ " variant: "
               +:+ str_size (im_size resized)) >>
  ret results.

(** [process_image(image_content, original_key)] *)
Definition process_image (image_content : bytes) (original_key : string)
  : M (list (string * VariantInfo)) :=
  try_except
    (let* image := Image_open image_content in
     let* im := deref image in
     let original_format := im_format im in
     let original_size := im_size im in
     logger_info ("Original image: " +:+ str_size original_size
                  +:+ ", Format: " +:+ str_opt original_format) >>
     for_fold (process_variant image original_key original_size) SIZES [])
    (fun e =>
       logger_error ("Error in process_image: " +:+ str_exn e) >>
       raise e).

(** One line of the message per entry of [results.items()]. *)
Definition variant_line (entry : string * VariantInfo) : string :=
  "  - " +:+ fst entry +:+ ": " +:+ fmt_dims (info_size (snd entry))
  +:+ " -> " +:+ info_key (snd entry) +:+ nl.

(** [send_notification(image_key, results)] *)
Definition send_notification (image_key : string)
  (results : list (string * VariantInfo)) : M unit :=
  try_except
    (let message :=
       nl +:+ "Image Processing Complete!" +:+ nl +:+ nl
       +:+ "Original Image: " +:+ image_key +:+ nl
       +:+ "Processed Variants:" +:+ nl in
     let message :=
       fold_left (fun msg entry => msg +:+ variant_line entry) results message in
     let* now := utcnow_isoformat in
     let message := message +:+ nl +:+ "Processed at: " +:+ now in
     publish (SNS_TOPIC_ARN env) ("Image Processed: " +:+ image_key) message >>
     logger_info "Notification sent successfully")
    (fun e => logger_error ("Error sending notification: " +:+ str_exn e)).

(** The body of the loop over [event['Records']]; [continue] ends the
    iteration. *)
Definition handle_record (record : S3Record) : M unit :=
  let bucket := bucket_name record in
  let key := object_key record in
  logger_info ("Processing image: " +:+ key +:+ " from bucket: " +:+ bucket) >>
  if contains "processed/" key then
    logger_info "Skipping already processed image"
  else
    let* image_content := get_object bucket key in
    let* results := process_image image_content key in
    send_notification key results >>
    logger_info ("Successfully processed " +:+ key).

(** [lambda_handler(event, context)], [event] being [event['Records']]. *)
Definition lambda_handler (event : list S3Record) : M Response :=
  try_except
    (for_each handle_record event >>
     ret {| statusCode := 200;
            body := json_dumps "Image processing completed successfully" |})
    (fun e =>
       logger_error ("Error processing image: " +:+ str_exn e) >>
       raise e).

End Handler.

(** ** Vocabulary of the properties *)

(** [d[k]] on the dictionaries above. *)
Fixpoint dict_get {V : Type} (k : string) (d : list (string * V)) : option V :=
  match d with
  | [] => None
  | (k', v) :: d' => if String.eqb k' k then Some v else dict_get k d'
  end.

(** [processed/<variant-name>/<original-key>] *)
Definition dest_key (variant original_key : string) : string :=
  "processed/" +:+ variant +:+ "/" +:+ original_key.

(** The entry of the result mapping for a variant of a given size. *)
Definition variant_entry (original_key variant : string) (size : Z * Z)
  : string * VariantInfo :=
  (variant, {| info_size := size; info_key := dest_key variant original_key |}).

(** A width and height fit a bounding box. *)
Definition fits (box size : Z * Z) : Prop :=
  fst size <= fst box /\ snd size <= snd box.

(** Same aspect ratio up to the rounding of one side to a whole pixel: the
    width is less than one pixel away from the height scaled by the source
    ratio, or the height from the width scaled by its inverse. *)
Definition aspect_within_rounding (source result : Z * Z) : Prop :=
  Z.abs (fst result * snd source - snd result * fst source) < snd source
  \/ Z.abs (snd result * fst source - fst result * snd source) < fst source.

(** The size [thumbnail(box)] gives an image of size [size] in an
    environment. *)
Definition resized_size (env : Env) (box size : Z * Z) : Z * Z :=
  Pillow.thumbnail_size (float_tie env box size) box size.

(** What [preserve_aspect_ratio (x, y) w h] can answer for positive sizes. *)
Inductive fitted (x y w h : Z) : option (Z * Z) -> Prop :=
| fitted_none : w <= x -> h <= y -> fitted x y w h None
| fitted_height (r : Z) :
    w * y <= x * h -> h > y ->
    1 <= r <= x -> r <= w ->
    (r - 1) * h < y * w < (r + 1) * h ->
    fitted x y w h (Some (r, y))
| fitted_width (r : Z) :
    x * h < w * y -> w > x ->
    1 <= r <= y -> r <= h ->
    (r - 1) * w < x * h < (r + 1) * w ->
    fitted x y w h (Some (x, r)).

(** The object behind a reference after [thumbnail]. *)
Definition thumbnail_image (env : Env) (target_size : Z * Z) (im : Image) : Image :=
  match Pillow.preserve_aspect_ratio (float_tie env target_size (im_size im))
          target_size (fst (im_size im)) (snd (im_size im)) with
  | None => im
  | Some size =>
      if decide (im_size im = size) then im
      else {| im_format := im_format im; im_mode := im_mode im;
              im_size := size; im_data := lanczos env im size |}
  end.

(** The sizes the loop of [process_image] records, entry by entry: with
    transparency every variant starts from the source size, without it
    from the size the previous variant left behind. *)
Fixpoint variant_sizes (env : Env) (transparent : bool) (current : Z * Z)
  (table : list (string * (Z * Z))) : list (string * (Z * Z)) :=
  match table with
  | [] => []
  | (name, box) :: rest =>
      let s := resized_size env box current in
      (name, s)
      :: variant_sizes env transparent (if transparent then current else s) rest
  end.

(** The object a fetch of (bucket, key) finds, if any: it must be there and
    the function must be allowed to read it. *)
Definition readable (env : Env) (st : State) (bucket key : string)
  : option S3Object :=
  if s3_readable env bucket key then s3 st !! (bucket, key) else None.

(** The error of a fetch that finds nothing. *)
Definition fetch_error (env : Env) (bucket key : string) : Exn :=
  ClientError (if s3_readable env bucket key then "NoSuchKey" else "AccessDenied").

(** The effect of an accepted write on the object store. *)
Definition apply_put (m : gmap (string * string) S3Object) (c : Call)
  : gmap (string * string) S3Object :=
  match c with
  | PutObject (Some b) k o => <[(b, k) := o]> m
  | _ => m
  end.

(** Two environments that differ at most in what concerns SNS. *)
Definition same_but_sns (e1 e2 : Env) : Prop :=
  image_open e1 = image_open e2 /\ white_canvas e1 = white_canvas e2
  /\ alpha_band e1 = alpha_band e2 /\ paste e1 = paste e2
  /\ lanczos e1 = lanczos e2 /\ jpeg_save e1 = jpeg_save e2
  /\ PROCESSED_BUCKET e1 = PROCESSED_BUCKET e2
  /\ s3_writable e1 = s3_writable e2 /\ isoformat e1 = isoformat e2
  /\ s3_readable e1 = s3_readable e2
  /\ float_tie e1 = float_tie e2.

(** The part of the state the handler's control flow reads. *)
Definition same_inputs (s1 s2 : State) : Prop :=
  s3 s1 = s3 s2 /\ heap s1 = heap s2 /\ clock s1 = clock s2.

(** The request one iteration of the generator's loop sends. *)
Definition variant_put (env : Env) (key name : string) (c : Call) : Prop :=
  exists o, c = PutObject (PROCESSED_BUCKET env) (dest_key name key) o.

(** The result mapping after recording the given sizes, in order. *)
Definition collect (key : string) (sizes : list (string * (Z * Z)))
  (acc : list (string * VariantInfo)) : list (string * VariantInfo) :=
  fold_left
    (fun acc e =>
       dict_set (fst e)
         {| info_size := snd e; info_key := dest_key (fst e) key |} acc)
    sizes acc.

(** The mode of the image [resize_image] hands to the encoder for a source
    of the given mode. *)
Definition encoded_mode (mode : string) : string :=
  if has_transparency mode then "RGB" else mode.

(** What can make the generator fail once the image is decoded: the encoder
    refuses an image, the destination bucket is not configured, or S3
    refuses a write to it. *)
Definition generator_fault (env : Env) : Prop :=
  (exists im, jpeg_save env 85 true im = None)
  \/ PROCESSED_BUCKET env = None
  \/ (exists b k, PROCESSED_BUCKET env = Some b /\ s3_writable env b k = false).

(** Two computations that, from states with the same inputs, have the same
    outcome and leave states with the same inputs. *)
Definition sim {A} (m1 m2 : M A) : Prop :=
  forall s1 s2, same_inputs s1 s2 ->
    fst (m1 s1) = fst (m2 s2) /\ same_inputs (snd (m1 s1)) (snd (m2 s2)).

(** The answer of a successful invocation. *)
Definition success_response : Response :=
  {| statusCode := 200;
     body := json_dumps "Image processing completed successfully" |}.

(** Objects under keys that do not start with [processed/] are the same in
    both states. *)
Definition uploads_kept (s1 s2 : State) : Prop :=
  forall bucket key,
    String.prefix "processed/" key = false ->
    s3 s2 !! (bucket, key) = s3 s1 !! (bucket, key).

(** The object the generator's loop writes for a variant. *)
Definition variant_object (buffer : bytes) (original_size processed_size : Z * Z)
  (name now : string) : S3Object :=
  {| obj_body := buffer;
     obj_content_type := "image/jpeg";
     obj_metadata :=
       [ ("original-size", fmt_dims original_size);
         ("processed-size", fmt_dims processed_size);
         ("variant", name);
         ("processed-date", now) ] |}.

(** The text of a notification: the heading, one line per entry of the
    result mapping in its order, and the time. *)
Definition notification_text (image_key : string)
  (results : list (string * VariantInfo)) (now : string) : string :=
  (nl +:+ "Image Processing Complete!" +:+ nl +:+ nl
   +:+ "Original Image: " +:+ image_key +:+ nl
   +:+ "Processed Variants:" +:+ nl)
  +:+ fold_right String.append EmptyString (map variant_line results)
  +:+ nl +:+ "Processed at: " +:+ now.

(** Whether SNS takes a notification with this subject and message. *)
Definition delivered (env : Env) (subject message : string) : bool :=
  match SNS_TOPIC_ARN env with
  | Some t => sns_accepts env t subject message
  | None => false
  end.

(** A call is a write under a key that the skip test of the handler
    recognises. *)
Definition writes_processed_key (c : Call) : Prop :=
  exists bucket key o,
    c = PutObject bucket key o /\ contains "processed/" key = true.

(** Between two states no request was issued and no store changed. *)
Definition quiet (s1 s2 : State) : Prop :=
  s3 s2 = s3 s1 /\ calls s2 = calls s1 /\ outbox s2 = outbox s1.

(** ** A concrete environment *)

Definition sample_image (mode : string) (size : Z * Z) : Image :=
  {| im_format := Some "PNG"; im_mode := mode; im_size := size; im_data := [] |}.

(** Every non-empty upload decodes to [im]; S3 accepts every write and SNS
    answers [sns_up]. *)
Definition sample_env (im : Image) (sns_up : bool) : Env :=
  {| image_open := fun b => match b with [] => None | _ => Some im end;
     white_canvas := fun _ => [];
     alpha_band := fun _ => [];
     paste := fun canvas _ _ => canvas;
     lanczos := fun i _ => im_data i;
     float_tie := fun _ _ => true;
     jpeg_save := fun _ _ _ => Some [];
     PROCESSED_BUCKET := Some "processed-bucket";
     SNS_TOPIC_ARN := Some "arn:aws:sns:us-east-1:000000000000:images";
     s3_readable := fun _ _ => true;
     s3_writable := fun _ _ => true;
     sns_accepts := fun _ _ _ => sns_up;
     isoformat := fun _ => "2024-01-01T00:00:00" |}.

(** An environment after Pillow and a bucket policy: the JPEG encoder
    refuses the modes with transparency, S3 can be read anywhere but
    written only under [processed/], and binary64 keeps the ceiling at a
    tie. *)
Definition pillow_like_env (im : Image) : Env :=
  {| image_open := fun b => match b with [] => None | _ => Some im end;
     white_canvas := fun _ => [];
     alpha_band := fun _ => [];
     paste := fun canvas _ _ => canvas;
     lanczos := fun i _ => im_data i;
     float_tie := fun _ _ => false;
     jpeg_save :=
       fun _ _ i => if has_transparency (im_mode i) then None else Some [];
     PROCESSED_BUCKET := Some "processed-bucket";
     SNS_TOPIC_ARN := Some "arn:aws:sns:us-east-1:000000000000:images";
     s3_readable := fun _ _ => true;
     s3_writable := fun _ k => String.prefix "processed/" k;
     sns_accepts := fun _ _ _ => true;
     isoformat := fun _ => "2024-01-01T00:00:00" |}.

(** As [sample_env], but S3 refuses the write of the mobile variant of
    [vacation.png], the destination may be left unconfigured and the
    encoder may refuse every image. *)
Definition refusing_env (im : Image) (bucket : option string) (encodes : bool)
  : Env :=
  {| image_open := fun b => match b with [] => None | _ => Some im end;
     white_canvas := fun _ => [];
     alpha_band := fun _ => [];
     paste := fun canvas _ _ => canvas;
     lanczos := fun i _ => im_data i;
     float_tie := fun _ _ => true;
     jpeg_save := fun _ _ _ => if encodes then Some [] else None;
     PROCESSED_BUCKET := bucket;
     SNS_TOPIC_ARN := Some "arn:aws:sns:us-east-1:000000000000:images";
     s3_readable := fun _ _ => true;
     s3_writable :=
       fun _ k => negb (String.eqb k "processed/mobile/vacation.png");
     sns_accepts := fun _ _ _ => true;
     isoformat := fun _ => "2024-01-01T00:00:00" |}.

Definition upload (content : bytes) : S3Object :=
  {| obj_body := content; obj_content_type := "image/png"; obj_metadata := [] |}.

Definition sample_state (objects : list (string * string * S3Object)) : State :=
  {| s3 := list_to_map objects; heap := []; calls := []; outbox := [];
     logs := []; clock := 0 |}.

(** A process that holds one image object, at address 0. *)
Definition holding (im : Image) : State :=
  {| s3 := ∅; heap := [im]; calls := []; outbox := []; logs := []; clock := 0 |}.

Definition vacation : S3Record :=
  {| bucket_name := "uploads"; object_key := "vacation.png" |}.

Definition vacation_state : State :=
  sample_state [ ("uploads", "vacation.png", upload [Byte.x89]) ].

Definition rgba_2000x1000 : Image := sample_image "RGBA" (2000, 1000).
Definition rgb_200x200 : Image := sample_image "RGB" (200, 200).

(** The value a run returned, [d] if it raised. *)
Definition returned {A} (run : Outcome A * State) (d : A) : A :=
  match fst run with
  | Return a => a
  | Raise _ => d
  end.

Abbreviation vacation_run :=
  (process_image (sample_env rgba_2000x1000 true) [Byte.x89] "vacation.png"
     vacation_state) (only parsing).

Abbreviation photo_run :=
  (process_image (sample_env rgb_200x200 true) [Byte.x89] "photo.jpg"
     (sample_state [])) (only parsing).

Definition already_processed : S3Record :=
  {| bucket_name := "uploads"; object_key := "processed/thumbnail/vacation.png" |}.

Definition nested_processed : S3Record :=
  {| bucket_name := "uploads"; object_key := "photos/processed/pic.png" |}.

Definition missing : S3Record :=
  {| bucket_name := "uploads"; object_key := "missing.png" |}.

(** * Properties *)

(** ** The size rule of [thumbnail] *)

Section ThumbnailSize.

Import Pillow.

Lemma scaled_along_height (y w h : Z) :
  0 < h -> (inject_Z y * (inject_Z w / inject_Z h) == (y * w) # Z.to_pos h)%Q.
Proof.
  intros Hh. destruct h as [|p|p]; try lia.
  unfold Qeq, Qdiv, Qmult, Qinv, inject_Z; simpl. lia.
Qed.

Lemma scaled_along_width (x w h : Z) :
  0 < w -> 0 < h ->
  (inject_Z x / (inject_Z w / inject_Z h) == (x * h) # Z.to_pos w)%Q.
Proof.
  intros Hw Hh. destruct h as [|p|p]; try lia. destruct w as [|q|q]; try lia.
  unfold Qeq, Qdiv, Qmult, Qinv, inject_Z; simpl. lia.
Qed.

Lemma floor_ceiling_frac (n : Z) (d : positive) :
  let lo := Qfloor (n # d) in
  let hi := Qceiling (n # d) in
  lo * Z.pos d <= n < (lo + 1) * Z.pos d /\
  (hi - 1) * Z.pos d < n <= hi * Z.pos d.
Proof.
  unfold Qceiling, Qfloor, Qopp; simpl.
  pose proof (Z.div_mod n (Z.pos d) ltac:(lia)) as E1.
  pose proof (Z.mod_pos_bound n (Z.pos d) ltac:(lia)) as B1.
  pose proof (Z.div_mod (- n) (Z.pos d) ltac:(lia)) as E2.
  pose proof (Z.mod_pos_bound (- n) (Z.pos d) ltac:(lia)) as B2.
  nia.
Qed.

(** Whatever the keys and the tie, [round_aspect] answers a positive
    integer less than one away from the number, and no larger than any
    integer bound of it. *)
Lemma round_aspect_frac (tie : bool) (number : Q) (key : Z -> Q) (n : Z)
  (d : positive) :
  (number == n # d)%Q -> 0 < n ->
  let r := round_aspect tie number key in
  1 <= r /\
  (forall b, 1 <= b -> n <= b * Z.pos d -> r <= b) /\
  (r - 1) * Z.pos d < n < (r + 1) * Z.pos d.
Proof.
  intros E Hn. unfold round_aspect.
  rewrite (Qfloor_comp _ _ E), (Qceiling_comp _ _ E).
  destruct (floor_ceiling_frac n d) as [Hlo Hhi].
  set (lo := Qfloor (n # d)) in *. set (hi := Qceiling (n # d)) in *.
  assert (lo <= hi) by nia.
  assert (forall c, c = lo \/ c = hi ->
            1 <= Z.max c 1
            /\ (forall b, 1 <= b -> n <= b * Z.pos d -> Z.max c 1 <= b)
            /\ (Z.max c 1 - 1) * Z.pos d < n < (Z.max c 1 + 1) * Z.pos d)
    as Hboth.
  { intros c Hc. split; [lia|]. split.
    - intros b Hb Hnb. assert (hi <= b) by nia. lia.
    - destruct (Z.max_spec c 1) as [[? ->]|[? ->]]; destruct Hc; subst c; nia. }
  cbv zeta.
  destruct (key lo ?= key hi)%Q; [destruct tie| |]; apply Hboth; auto.
Qed.

Lemma aspect_le_box (w h x y : Z) :
  0 < h -> 0 < y ->
  Qle_bool (inject_Z w / inject_Z h) (inject_Z x / inject_Z y) = true
  <-> w * y <= x * h.
Proof.
  intros Hh Hy. rewrite Qle_bool_iff.
  destruct h as [|p|p]; try lia. destruct y as [|q|q]; try lia.
  unfold Qle, Qdiv, Qmult, Qinv, inject_Z; simpl. lia.
Qed.

Lemma preserve_aspect_ratio_fitted (tie : bool) (x y w h : Z) :
  0 < x -> 0 < y -> 0 < w -> 0 < h ->
  fitted x y w h (preserve_aspect_ratio tie (x, y) w h).
Proof.
  intros Hx Hy Hw Hh. unfold preserve_aspect_ratio.
  destruct ((x >=? w) && (y >=? h)) eqn:Hbox.
  { apply andb_true_iff in Hbox as [? ?]. constructor; lia. }
  apply andb_false_iff in Hbox.
  destruct (Qle_bool _ _) eqn:Hasp.
  - apply aspect_le_box in Hasp; try lia.
    assert (y < h) by (destruct Hbox; nia).
    destruct (round_aspect_frac tie _
                (fun n => Qabs (inject_Z w / inject_Z h - inject_Z n / inject_Z y)%Q)
                _ _ (scaled_along_height y w h Hh)) as (H1 & H2 & H3); [nia|].
    rewrite Z2Pos.id in * by lia.
    apply fitted_height; try lia.
    + split; [lia|]. apply H2; lia.
    + apply H2; nia.
  - assert (~ w * y <= x * h) as Hn.
    { intros Hc. apply aspect_le_box in Hc; try lia. congruence. }
    assert (x < w) by (destruct Hbox; nia).
    destruct (round_aspect_frac tie _
                (fun n => if n =? 0 then 0%Q else
                   Qabs (inject_Z w / inject_Z h - inject_Z x / inject_Z n)%Q)
                _ _ (scaled_along_width x w h Hw Hh)) as (H1 & H2 & H3); [nia|].
    rewrite Z2Pos.id in * by lia.
    apply fitted_width; try lia.
    + split; [lia|]. apply H2; lia.
    + apply H2; nia.
Qed.

(** A box that holds the image leaves its size alone. *)
Lemma thumbnail_size_noop (tie : bool) (box size : Z * Z) :
  fits box size -> thumbnail_size tie box size = size.
Proof.
  destruct box as [x y], size as [w h]. unfold fits, thumbnail_size; simpl.
  intros [Hw Hh].
  replace (x >=? w) with true by (symmetry; apply Z.geb_le; lia).
  replace (y >=? h) with true by (symmetry; apply Z.geb_le; lia).
  reflexivity.
Qed.

(** The new size is positive, fits the box, does not exceed the old size
    and keeps the aspect ratio up to rounding. *)
Lemma thumbnail_size_fits (tie : bool) (box size : Z * Z) :
  0 < fst box -> 0 < snd box -> 0 < fst size -> 0 < snd size ->
  let s := thumbnail_size tie box size in
  0 < fst s /\ 0 < snd s /\ fits box s /\ fits size s
  /\ aspect_within_rounding size s.
Proof.
  destruct box as [x y], size as [w h]; cbn [fst snd]. intros Hx Hy Hw Hh.
  unfold thumbnail_size, fits, aspect_within_rounding; cbn [fst snd].
  destruct (preserve_aspect_ratio_fitted tie x y w h Hx Hy Hw Hh); cbn [fst snd];
    repeat apply conj; lia.
Qed.

(** When the box does not hold the image, one side of the result is the
    side of the box. *)
Lemma thumbnail_size_touches (tie : bool) (box size : Z * Z) :
  0 < fst box -> 0 < snd box -> 0 < fst size -> 0 < snd size ->
  ~ fits box size ->
  fst (thumbnail_size tie box size) = fst box
  \/ snd (thumbnail_size tie box size) = snd box.
Proof.
  destruct box as [x y], size as [w h]; cbn [fst snd]. intros Hx Hy Hw Hh Hn.
  unfold thumbnail_size, fits in *; cbn [fst snd] in *.
  destruct (preserve_aspect_ratio_fitted tie x y w h Hx Hy Hw Hh); cbn [fst snd].
  - lia.
  - right; reflexivity.
  - left; reflexivity.
Qed.

End ThumbnailSize.

(** The same for the size an environment gives. *)
Lemma resized_size_noop (env : Env) (box size : Z * Z) :
  fits box size -> resized_size env box size = size.
Proof. apply thumbnail_size_noop. Qed.

Lemma resized_size_fits (env : Env) (box size : Z * Z) :
  0 < fst box -> 0 < snd box -> 0 < fst size -> 0 < snd size ->
  let s := resized_size env box size in
  0 < fst s /\ 0 < snd s /\ fits box s /\ fits size s
  /\ aspect_within_rounding size s.
Proof. apply thumbnail_size_fits. Qed.

Lemma resized_size_touches (env : Env) (box size : Z * Z) :
  0 < fst box -> 0 < snd box -> 0 < fst size -> 0 < snd size ->
  ~ fits box size ->
  fst (resized_size env box size) = fst box
  \/ snd (resized_size env box size) = snd box.
Proof. apply thumbnail_size_touches. Qed.

(** A tie: 200×480 in the 150×150 box is 62.5 wide before rounding, and
    the keys of 62 and of 63 are equal as rationals.  In binary64 the two
    keys differ in the last place and Pillow answers 63×150, the answer of
    [tie_floor = false]. *)
Lemma tie_of_200x480 :
  Pillow.thumbnail_size true (150, 150) (200, 480) = (62, 150)
  /\ Pillow.thumbnail_size false (150, 150) (200, 480) = (63, 150).
Proof. split; vm_compute; reflexivity. Qed.

(** ** Runs of the monad *)

Lemma bind_return {A B} (m : M A) (k : A -> M B) st b st' :
  bind m k st = (Return b, st') ->
  exists a st1, m st = (Return a, st1) /\ k a st1 = (Return b, st').
Proof.
  unfold bind. destruct (m st) as [[a|e] st1]; [eauto | discriminate].
Qed.

Lemma bind_run_return {A B} (m : M A) (k : A -> M B) st a st1 :
  m st = (Return a, st1) -> bind m k st = k a st1.
Proof. unfold bind. intros ->. reflexivity. Qed.

Lemma bind_run_raise {A B} (m : M A) (k : A -> M B) st e st1 :
  m st = (Raise e, st1) -> bind m k st = (Raise e, st1).
Proof. unfold bind. intros ->. reflexivity. Qed.

Lemma quiet_refl st : quiet st st.
Proof. unfold quiet; auto. Qed.

Lemma quiet_trans s1 s2 s3 : quiet s1 s2 -> quiet s2 s3 -> quiet s1 s3.
Proof. unfold quiet. intros (?&?&?) (?&?&?). repeat split; congruence. Qed.

(** ** Image objects *)

Section ImageObjects.

Variable env : Env.

Lemma thumbnail_image_size box im :
  im_size (thumbnail_image env box im) = resized_size env box (im_size im).
Proof.
  unfold thumbnail_image, resized_size, Pillow.thumbnail_size.
  destruct (Pillow.preserve_aspect_ratio _ _ _ _) as [s|]; [|reflexivity].
  destruct (decide (im_size im = s)); [assumption | reflexivity].
Qed.

Lemma thumbnail_image_mode box im :
  im_mode (thumbnail_image env box im) = im_mode im.
Proof.
  unfold thumbnail_image.
  destruct (Pillow.preserve_aspect_ratio _ _ _ _) as [s|]; [|reflexivity].
  destruct (decide (im_size im = s)); reflexivity.
Qed.

(** [thumbnail] replaces the object behind the reference and nothing
    else. *)
Lemma thumbnail_run ref box st im :
  heap st !! ref = Some im ->
  exists st',
    thumbnail env ref box st = (Return tt, st')
    /\ quiet st st' /\ clock st' = clock st
    /\ heap st' = <[ref := thumbnail_image env box im]> (heap st).
Proof.
  intros Href. unfold thumbnail, thumbnail_image, bind, deref.
  rewrite Href; cbn [default from_option id].
  destruct (Pillow.preserve_aspect_ratio _ _ _ _) as [s|].
  - destruct (decide (im_size im = s)).
    + exists st. rewrite list_insert_id by assumption.
      repeat split; reflexivity.
    + eexists. split; [reflexivity|]. repeat split; reflexivity.
  - exists st. rewrite list_insert_id by assumption.
    repeat split; reflexivity.
Qed.

(** [resize_image] returns a reference to an object of the thumbnail
    size.  The caller's object keeps its mode; it keeps its size exactly
    when its mode has transparency. *)
Lemma resize_image_run image box st im :
  heap st !! image = Some im ->
  exists ref st' resized im',
    resize_image env image box st = (Return ref, st')
    /\ quiet st st' /\ clock st' = clock st
    /\ heap st' !! ref = Some resized
    /\ im_size resized = resized_size env box (im_size im)
    /\ heap st' !! image = Some im'
    /\ im_mode im' = im_mode im
    /\ im_size im' = (if has_transparency (im_mode im) then im_size im
                      else resized_size env box (im_size im)).
Proof.
  intros Himage. unfold resize_image.
  unfold bind at 1. unfold deref at 1. rewrite Himage; cbn [default from_option id].
  destruct (has_transparency (im_mode im)).
  - set (canvas := {| im_format := None; im_mode := "RGB";
                      im_size := im_size im; im_data := _ |}).
    unfold bind at 1. unfold new_image at 1.
    set (st1 := set_heap _ st).
    assert (heap st1 !! length (heap st) = Some canvas) as Hnew.
    { unfold st1; cbn. apply list_lookup_middle. reflexivity. }
    destruct (thumbnail_run (length (heap st)) box st1 canvas Hnew)
      as (st' & Hrun & Hq & Hc & Hh).
    rewrite (bind_run_return _ _ _ _ _ Hrun). unfold ret.
    exists (length (heap st)), st', (thumbnail_image env box canvas), im.
    split; [reflexivity|]. split; [exact Hq|]. split; [exact Hc|].
    assert (image < length (heap st))%nat as Hlt
      by (apply lookup_lt_Some in Himage; exact Himage).
    rewrite Hh. unfold st1; cbn [heap set_heap].
    repeat split.
    + apply list_lookup_insert_eq. rewrite length_app; cbn; lia.
    + rewrite thumbnail_image_size. reflexivity.
    + rewrite list_lookup_insert_ne by lia.
      rewrite lookup_app_l by lia. exact Himage.
  - unfold bind at 1. unfold ret at 1.
    destruct (thumbnail_run image box st im Himage)
      as (st' & Hrun & Hq & Hc & Hh).
    rewrite (bind_run_return _ _ _ _ _ Hrun). unfold ret.
    assert (image < length (heap st))%nat as Hlt
      by (apply lookup_lt_Some in Himage; exact Himage).
    exists image, st', (thumbnail_image env box im), (thumbnail_image env box im).
    split; [reflexivity|]. split; [exact Hq|]. split; [exact Hc|].
    rewrite Hh, list_lookup_insert_eq by lia.
    repeat split;
      auto using thumbnail_image_size, thumbnail_image_mode.
Qed.

End ImageObjects.

(** ** The variant generator *)

Section Generator.

Variable env : Env.

(** One iteration of the loop: the encoder fails before anything is sent,
    or one write to [processed/<name>/<key>] is sent and either refused
    or applied, in which case the entry is recorded. *)
Lemma process_variant_run image key osz acc name box st im :
  heap st !! image = Some im ->
  exists out st' im',
    process_variant env image key osz acc (name, box) st = (out, st')
    /\ outbox st' = outbox st
    /\ heap st' !! image = Some im'
    /\ im_mode im' = im_mode im
    /\ im_size im' = (if has_transparency (im_mode im) then im_size im
                      else resized_size env box (im_size im))
    /\ (forall e, out = Raise e -> generator_fault env)
    /\ ((calls st' = calls st /\ s3 st' = s3 st /\ exists e, out = Raise e)
        \/ exists c,
             variant_put env key name c
             /\ calls st' = calls st ++ [c]
             /\ ((s3 st' = s3 st /\ exists e, out = Raise e)
                 \/ (s3 st' = apply_put (s3 st) c
                     /\ out = Return
                          (dict_set name
                             {| info_size := resized_size env box (im_size im);
                                info_key := dest_key name key |} acc)))).
Proof.
  intros Himage. unfold process_variant; cbn [fst snd].
  destruct (resize_image_run env image box st im Himage)
    as (ref & st1 & resized & im' & Hrun & (Hs3 & Hcalls & Hout) & _
        & Href & Hsize & Him' & Hmode & Hsz).
  rewrite (bind_run_return _ _ _ _ _ Hrun).
  unfold Image_save. unfold bind at 1. unfold bind at 1. unfold deref at 1.
  rewrite Href; cbn [default from_option id].
  destruct (jpeg_save env 85 true resized) as [buffer|] eqn:Hsave.
  - unfold ret at 1. unfold bind at 1. unfold deref at 1.
    rewrite Href; cbn [default from_option id].
    unfold bind at 1. unfold utcnow_isoformat at 1.
    set (o := {| obj_body := buffer; obj_content_type := _; obj_metadata := _ |}).
    unfold bind at 1. unfold put_object at 1.
    destruct (PROCESSED_BUCKET env) as [b|] eqn:Hb.
    + destruct (s3_writable env b _) eqn:Hw.
      * eexists _, _, im'. split; [reflexivity|].
        cbn. rewrite Hsize.
        do 4 (split; [assumption|]). split; [discriminate|].
        right. exists (PutObject (Some b) (dest_key name key) o).
        split; [exists o; rewrite Hb; reflexivity|].
        split; [rewrite Hcalls; reflexivity|].
        right. split; [cbn; rewrite Hs3; reflexivity | reflexivity].
      * eexists _, _, im'. split; [reflexivity|].
        cbn. do 4 (split; [assumption|]).
        split; [intros _ _; right; right; eauto|].
        right. exists (PutObject (Some b) (dest_key name key) o).
        split; [exists o; rewrite Hb; reflexivity|].
        split; [rewrite Hcalls; reflexivity|].
        left. split; [assumption | eauto].
    + eexists _, _, im'. split; [reflexivity|].
      cbn. do 4 (split; [assumption|]).
      split; [intros _ _; right; left; exact Hb|].
      right. exists (PutObject None (dest_key name key) o).
      split; [exists o; rewrite Hb; reflexivity|].
      split; [rewrite Hcalls; reflexivity|].
      left. split; [assumption | eauto].
  - unfold raise. eexists _, _, im'. split; [reflexivity|].
    do 4 (split; [assumption|]).
    split; [intros _ _; left; eauto|]. left. eauto.
Qed.

(** The whole loop: the writes sent are those of a prefix of the table,
    in order; a run that returns went through the whole table, applied
    every write and recorded every size. *)
Lemma variants_loop_run image key osz table :
  forall acc st im,
    heap st !! image = Some im ->
    exists out st' new done,
      for_fold (process_variant env image key osz) table acc st = (out, st')
      /\ outbox st' = outbox st
      /\ calls st' = calls st ++ new
      /\ Forall2 (fun c e => variant_put env key (fst e) c) new done
      /\ done `prefix_of` table
      /\ (forall e, out = Raise e -> generator_fault env)
      /\ (forall res, out = Return res ->
            done = table
            /\ s3 st' = fold_left apply_put new (s3 st)
            /\ res = collect key
                       (variant_sizes env (has_transparency (im_mode im))
                          (im_size im) table) acc).
Proof.
  induction table as [|[name box] rest IH]; intros acc st im Himage.
  - exists (Return acc), st, [], []. cbn.
    split; [reflexivity|]. split; [reflexivity|].
    split; [symmetry; apply app_nil_r|]. split; [constructor|].
    split; [reflexivity|]. split; [discriminate|].
    intros res [= <-]. auto.
  - cbn [for_fold].
    destruct (process_variant_run image key osz acc name box st im Himage)
      as (out1 & st1 & im1 & Hrun & Hout1 & Him1 & Hmode & Hsize & Hfault & Hcase).
    destruct Hcase as [(Hcalls & Hs3 & e & ->)
                      |(c & Hc & Hcalls & [(Hs3 & e & ->)|(Hs3 & ->)])].
    + rewrite (bind_run_raise _ _ _ _ _ Hrun).
      exists (Raise e), st1, [], [].
      split; [reflexivity|]. split; [assumption|].
      split; [rewrite app_nil_r; assumption|]. split; [constructor|].
      split; [apply prefix_nil|]. split; [eauto|]. discriminate.
    + rewrite (bind_run_raise _ _ _ _ _ Hrun).
      exists (Raise e), st1, [c], [(name, box)].
      split; [reflexivity|]. split; [assumption|]. split; [assumption|].
      split; [repeat constructor; assumption|].
      split; [apply prefix_cons, prefix_nil|]. split; [eauto|]. discriminate.
    + rewrite (bind_run_return _ _ _ _ _ Hrun).
      destruct (IH (dict_set name
                      {| info_size := resized_size env box (im_size im);
                         info_key := dest_key name key |} acc) st1 im1 Him1)
        as (out & st' & new & done & Hloop & Hout & Hcalls' & Hnew & Hpre
            & Hfault' & Hret).
      exists out, st', (c :: new), ((name, box) :: done).
      split; [assumption|]. split; [congruence|].
      split; [rewrite Hcalls', Hcalls, <- app_assoc; reflexivity|].
      split; [constructor; assumption|].
      split; [apply prefix_cons; assumption|]. split; [assumption|].
      intros res Hres. destruct (Hret res Hres) as (-> & Hs3' & ->).
      split; [reflexivity|]. split.
      * cbn [fold_left]. rewrite Hs3', Hs3. reflexivity.
      * cbn [variant_sizes collect fold_left fst snd].
        rewrite Hmode, Hsize. reflexivity.
Qed.

(** Bytes that are not an image: [process_image] raises the decoder's
    error before sending anything. *)
Lemma process_image_undecodable content key st :
  image_open env content = None ->
  exists st',
    process_image env content key st = (Raise UnidentifiedImageError, st')
    /\ quiet st st'.
Proof.
  intros Hopen. unfold process_image, try_except, Image_open.
  rewrite Hopen. unfold bind at 1. unfold raise at 1.
  eexists. split; [reflexivity|]. repeat split.
Qed.

(** Bytes that decode to [im]: the loop of [variants_loop_run] over
    [SIZES], started from an empty mapping. *)
Lemma process_image_run content key st im :
  image_open env content = Some im ->
  exists out st' new done,
    process_image env content key st = (out, st')
    /\ outbox st' = outbox st
    /\ calls st' = calls st ++ new
    /\ Forall2 (fun c e => variant_put env key (fst e) c) new done
    /\ done `prefix_of` SIZES
    /\ (forall e, out = Raise e -> generator_fault env)
    /\ (forall res, out = Return res ->
          done = SIZES
          /\ s3 st' = fold_left apply_put new (s3 st)
          /\ res = collect key
                     (variant_sizes env (has_transparency (im_mode im))
                        (im_size im) SIZES) []).
Proof.
  intros Hopen.
  set (st1 := set_heap (fun h => h ++ [im]) st).
  set (st2 := add_log (INFO, "Original image: " +:+ str_size (im_size im)
                             +:+ ", Format: " +:+ str_opt (im_format im)) st1).
  assert (heap st2 !! length (heap st) = Some im) as Himage.
  { unfold st2, st1; cbn [heap add_log set_heap].
    apply list_lookup_middle; reflexivity. }
  destruct (variants_loop_run (length (heap st)) key (im_size im) SIZES [] st2 im Himage)
    as (out & st' & new & done & Hloop & Hout & Hcalls & Hnew & Hpre & Hfault & Hret).
  assert (process_image env content key st =
          match out with
          | Return res => (Return res, st')
          | Raise e =>
              (Raise e,
               add_log (ERROR, "Error in process_image: " +:+ str_exn e) st')
          end) as Hrun.
  { unfold process_image, try_except, Image_open. rewrite Hopen.
    unfold bind at 1. unfold new_image at 1. fold st1.
    unfold bind at 1. unfold deref at 1.
    replace (heap st1 !! length (heap st)) with (Some im)
      by (symmetry; apply list_lookup_middle; reflexivity).
    cbn [default from_option id].
    unfold bind at 1. unfold logger_info at 1. fold st2.
    rewrite Hloop. destruct out; reflexivity. }
  destruct out as [res|e].
  - exists (Return res), st', new, done. repeat (split; [assumption|]). assumption.
  - eexists (Raise e), _, new, done. split; [exact Hrun|].
    cbn [outbox calls add_log]. repeat (split; [assumption|]). discriminate.
Qed.

(** With a working encoder and destination, a decodable image always
    yields a result. *)
Lemma process_image_succeeds content key st im :
  image_open env content = Some im ->
  ~ generator_fault env ->
  exists res st', process_image env content key st = (Return res, st').
Proof.
  intros Hopen Hok.
  destruct (process_image_run content key st im Hopen)
    as ([res|e] & st' & new & done & Hrun & _ & _ & _ & _ & Hfault & _).
  - eauto.
  - destruct Hok. eauto.
Qed.

End Generator.

(** ** The notifier and the orchestrator *)

Section Orchestrator.

Variable env : Env.

Lemma for_each_app {A} (body : A -> M unit) (xs ys : list A) st :
  for_each body (xs ++ ys) st
  = bind (for_each body xs) (fun _ => for_each body ys) st.
Proof.
  revert st. induction xs as [|x xs IH]; intros st; cbn [for_each app].
  - reflexivity.
  - unfold bind. destruct (body x st) as [[[]|e] st1]; [|reflexivity].
    rewrite IH. reflexivity.
Qed.

(** [send_notification] sends one publish request and returns, whatever
    SNS answers; the outbox grows exactly when SNS accepts. *)
Lemma send_notification_run key results st :
  exists st' message,
    send_notification env key results st = (Return tt, st')
    /\ calls st' = calls st
                   ++ [Publish (SNS_TOPIC_ARN env) ("Image Processed: " +:+ key) message]
    /\ s3 st' = s3 st
    /\ outbox st' =
         match SNS_TOPIC_ARN env with
         | Some t =>
             if sns_accepts env t ("Image Processed: " +:+ key) message
             then outbox st ++ [(t, "Image Processed: " +:+ key, message)]
             else outbox st
         | None => outbox st
         end.
Proof.
  unfold send_notification, try_except.
  unfold bind at 1. unfold utcnow_isoformat at 1.
  set (message := _ +:+ nl +:+ "Processed at: " +:+ _).
  unfold bind at 1. unfold publish at 1.
  destruct (SNS_TOPIC_ARN env) as [t|].
  - destruct (sns_accepts env t ("Image Processed: " +:+ key) message) eqn:Hacc;
      eexists _, message; (split; [reflexivity|]);
      rewrite Hacc; repeat split.
  - eexists _, message. split; [reflexivity|]. repeat split.
Qed.

(** A record whose key contains [processed/] is skipped. *)
Lemma handle_record_skips record st :
  contains "processed/" (object_key record) = true ->
  exists st',
    handle_record env record st = (Return tt, st')
    /\ quiet st st' /\ heap st' = heap st /\ clock st' = clock st.
Proof.
  intros Hskip. unfold handle_record. rewrite Hskip.
  unfold bind, logger_info. eexists. split; [reflexivity|].
  repeat split.
Qed.

(** The fetch fails: the record raises after its one request. *)
Lemma handle_record_fetch_fails record st :
  contains "processed/" (object_key record) = false ->
  readable env st (bucket_name record) (object_key record) = None ->
  exists st',
    handle_record env record st
    = (Raise (fetch_error env (bucket_name record) (object_key record)), st')
    /\ calls st' = calls st
                   ++ [GetObject (bucket_name record) (object_key record)]
    /\ s3 st' = s3 st /\ outbox st' = outbox st.
Proof.
  intros Hskip Hmiss. unfold handle_record. rewrite Hskip.
  unfold bind at 1. unfold logger_info at 1.
  unfold bind at 1. unfold get_object at 1.
  unfold readable in Hmiss. unfold fetch_error. cbn [s3 add_log].
  destruct (s3_readable env _ _); [rewrite Hmiss|];
    (eexists; split; [reflexivity|]; repeat split).
Qed.

(** The fetch succeeds: what follows is [process_image] on the body. *)
Lemma handle_record_fetched record st o :
  contains "processed/" (object_key record) = false ->
  readable env st (bucket_name record) (object_key record) = Some o ->
  handle_record env record st
  = bind (process_image env (obj_body o) (object_key record))
      (fun results =>
         bind (send_notification env (object_key record) results)
           (fun _ => logger_info ("Successfully processed "
                                  +:+ object_key record)))
      (add_call (GetObject (bucket_name record) (object_key record))
         (add_log (INFO, "Processing image: " +:+ object_key record
                         +:+ " from bucket: " +:+ bucket_name record) st)).
Proof.
  intros Hskip Hobj. unfold handle_record. rewrite Hskip.
  unfold bind at 1. unfold logger_info at 1.
  unfold bind at 1. unfold get_object at 1.
  unfold readable in Hobj. cbn [s3 add_log].
  destruct (s3_readable env _ _); [|discriminate].
  rewrite Hobj. reflexivity.
Qed.

(** The fetched bytes are not an image: the record raises the decoder's
    error, having sent nothing but the fetch. *)
Lemma handle_record_decode_fails record st o :
  contains "processed/" (object_key record) = false ->
  readable env st (bucket_name record) (object_key record) = Some o ->
  image_open env (obj_body o) = None ->
  exists st',
    handle_record env record st = (Raise UnidentifiedImageError, st')
    /\ calls st' = calls st
                   ++ [GetObject (bucket_name record) (object_key record)]
    /\ s3 st' = s3 st /\ outbox st' = outbox st.
Proof.
  intros Hskip Hobj Hopen.
  rewrite (handle_record_fetched record st o Hskip Hobj).
  destruct (process_image_undecodable env (obj_body o) (object_key record)
              (add_call (GetObject (bucket_name record) (object_key record))
                 (add_log (INFO, "Processing image: " +:+ object_key record
                                 +:+ " from bucket: " +:+ bucket_name record) st))
              Hopen) as (st' & Hrun & Hs3' & Hcalls' & Hout').
  rewrite (bind_run_raise _ _ _ _ _ Hrun).
  exists st'. split; [reflexivity|]. repeat split; assumption.
Qed.

(** The handler returns the success response when every record went
    through, and re-raises the error of the first record that raised. *)
Lemma lambda_handler_returns event st st1 :
  for_each (handle_record env) event st = (Return tt, st1) ->
  lambda_handler env event st = (Return success_response, st1).
Proof.
  intros Hrun. unfold lambda_handler, try_except.
  rewrite (bind_run_return _ _ _ _ _ Hrun). reflexivity.
Qed.

Lemma lambda_handler_raises pre record post st st1 e st2 :
  for_each (handle_record env) pre st = (Return tt, st1) ->
  handle_record env record st1 = (Raise e, st2) ->
  lambda_handler env (pre ++ record :: post) st
  = (Raise e, add_log (ERROR, "Error processing image: " +:+ str_exn e) st2).
Proof.
  intros Hpre Hrec. unfold lambda_handler, try_except.
  unfold bind at 1. rewrite for_each_app.
  rewrite (bind_run_return _ _ _ _ _ Hpre). cbn [for_each].
  rewrite (bind_run_raise _ _ _ _ _ Hrec). reflexivity.
Qed.

Lemma lambda_handler_status event st response st' :
  lambda_handler env event st = (Return response, st') ->
  response = success_response.
Proof.
  unfold lambda_handler, try_except.
  destruct (bind _ _ st) as [[r|e] st1] eqn:Hrun.
  - apply bind_return in Hrun as (? & ? & _ & Hret).
    unfold ret in Hret. injection Hret as <- _. intros [= <- _]. reflexivity.
  - unfold bind, logger_error, raise. discriminate.
Qed.

End Orchestrator.

(** ** What SNS answers does not reach the control flow *)

Section SnsIndependence.

Lemma sim_ret {A} (a : A) : sim (ret a) (ret a).
Proof. intros s1 s2 Hs. split; [reflexivity | exact Hs]. Qed.

Lemma sim_raise {A} (e : Exn) : sim (@raise A e) (raise e).
Proof. intros s1 s2 Hs. split; [reflexivity | exact Hs]. Qed.

Lemma sim_bind {A B} (m1 m2 : M A) (k1 k2 : A -> M B) :
  sim m1 m2 -> (forall a, sim (k1 a) (k2 a)) -> sim (bind m1 k1) (bind m2 k2).
Proof.
  intros Hm Hk s1 s2 Hs. unfold bind.
  destruct (Hm s1 s2 Hs) as [Hout Hs'].
  destruct (m1 s1) as [[a|e] s1'], (m2 s2) as [[a'|e'] s2'];
    cbn [fst snd] in *; try discriminate.
  - injection Hout as <-. apply Hk; assumption.
  - injection Hout as <-. split; [reflexivity | assumption].
Qed.

Lemma sim_try_except {A} (m1 m2 : M A) (h1 h2 : Exn -> M A) :
  sim m1 m2 -> (forall e, sim (h1 e) (h2 e)) ->
  sim (try_except m1 h1) (try_except m2 h2).
Proof.
  intros Hm Hh s1 s2 Hs. unfold try_except.
  destruct (Hm s1 s2 Hs) as [Hout Hs'].
  destruct (m1 s1) as [[a|e] s1'], (m2 s2) as [[a'|e'] s2'];
    cbn [fst snd] in *; try discriminate.
  - injection Hout as <-. split; [reflexivity | assumption].
  - injection Hout as <-. apply Hh; assumption.
Qed.

Lemma sim_for_each {A} (b1 b2 : A -> M unit) (xs : list A) :
  (forall x, sim (b1 x) (b2 x)) -> sim (for_each b1 xs) (for_each b2 xs).
Proof.
  intros Hb. induction xs as [|x xs IH]; cbn [for_each].
  - apply sim_ret.
  - apply sim_bind; [apply Hb | intros _; exact IH].
Qed.

Lemma sim_for_fold {A B} (b1 b2 : B -> A -> M B) (xs : list A) :
  (forall acc x, sim (b1 acc x) (b2 acc x)) ->
  forall acc, sim (for_fold b1 xs acc) (for_fold b2 xs acc).
Proof.
  intros Hb. induction xs as [|x xs IH]; intros acc; cbn [for_fold].
  - apply sim_ret.
  - apply sim_bind; [apply Hb | exact IH].
Qed.

(** The logger, the heap and the clock. *)
Lemma sim_logger_info (m1 m2 : string) : sim (logger_info m1) (logger_info m2).
Proof. intros s1 s2 Hs. split; [reflexivity | exact Hs]. Qed.

Lemma sim_logger_error (m1 m2 : string) : sim (logger_error m1) (logger_error m2).
Proof. intros s1 s2 Hs. split; [reflexivity | exact Hs]. Qed.

Lemma sim_deref (ref : nat) : sim (deref ref) (deref ref).
Proof.
  intros s1 s2 (Hs3 & Hheap & Hclock). unfold deref; cbn [fst snd].
  rewrite Hheap. repeat split; assumption.
Qed.

Lemma sim_new_image (im : Image) : sim (new_image im) (new_image im).
Proof.
  intros s1 s2 (Hs3 & Hheap & Hclock). unfold new_image, same_inputs; cbn.
  rewrite Hheap. repeat split; assumption.
Qed.

Lemma sim_assign (ref : nat) (im : Image) : sim (assign ref im) (assign ref im).
Proof.
  intros s1 s2 (Hs3 & Hheap & Hclock). unfold assign, same_inputs; cbn.
  rewrite Hheap. repeat split; assumption.
Qed.

Variables e1 e2 : Env.
Hypothesis Hsame : same_but_sns e1 e2.

Lemma sim_utcnow : sim (utcnow_isoformat e1) (utcnow_isoformat e2).
Proof.
  destruct Hsame as (_ & _ & _ & _ & _ & _ & _ & _ & Hiso & _).
  intros s1 s2 (Hs3 & Hheap & Hclock). unfold utcnow_isoformat, same_inputs; cbn.
  rewrite Hiso, Hclock. repeat split; assumption.
Qed.

Lemma sim_get_object (bucket key : string) :
  sim (get_object e1 bucket key) (get_object e2 bucket key).
Proof.
  destruct Hsame as (_ & _ & _ & _ & _ & _ & _ & _ & _ & Hr & _).
  intros s1 s2 (Hs3 & Hheap & Hclock). unfold get_object. rewrite Hs3, Hr.
  destruct (s3_readable e2 bucket key); [destruct (s3 s2 !! (bucket, key))|];
    cbn; repeat split; assumption.
Qed.

Lemma sim_put_object (bucket : option string) (key : string) (o : S3Object) :
  sim (put_object e1 bucket key o) (put_object e2 bucket key o).
Proof.
  destruct Hsame as (_ & _ & _ & _ & _ & _ & _ & Hw & _).
  intros s1 s2 (Hs3 & Hheap & Hclock). unfold put_object. rewrite Hw.
  destruct bucket as [b|]; [destruct (s3_writable e2 b key)|];
    unfold same_inputs; cbn; rewrite ?Hs3; repeat split; congruence.
Qed.

Lemma sim_thumbnail (ref : nat) (box : Z * Z) :
  sim (thumbnail e1 ref box) (thumbnail e2 ref box).
Proof.
  destruct Hsame as (_ & _ & _ & _ & Hl & _ & _ & _ & _ & _ & Htie).
  unfold thumbnail. apply sim_bind; [apply sim_deref | intros im].
  rewrite Htie.
  destruct (Pillow.preserve_aspect_ratio _ _ _ _) as [s|]; [|apply sim_ret].
  destruct (decide (im_size im = s)); [apply sim_ret|].
  rewrite Hl. apply sim_assign.
Qed.

Lemma sim_Image_open (content : bytes) :
  sim (Image_open e1 content) (Image_open e2 content).
Proof.
  destruct Hsame as (Ho & _). unfold Image_open. rewrite Ho.
  destruct (image_open e2 content); [apply sim_new_image | apply sim_raise].
Qed.

Lemma sim_Image_save (ref : nat) : sim (Image_save e1 ref) (Image_save e2 ref).
Proof.
  destruct Hsame as (_ & _ & _ & _ & _ & Hj & _).
  unfold Image_save. apply sim_bind; [apply sim_deref | intros im].
  rewrite Hj. destruct (jpeg_save e2 85 true im); [apply sim_ret | apply sim_raise].
Qed.

Lemma sim_resize_image (image : nat) (box : Z * Z) :
  sim (resize_image e1 image box) (resize_image e2 image box).
Proof.
  destruct Hsame as (_ & Hw & Ha & Hp & _).
  unfold resize_image. apply sim_bind; [apply sim_deref | intros im].
  apply sim_bind.
  - rewrite Hw, Ha, Hp.
    destruct (has_transparency (im_mode im)); [apply sim_new_image | apply sim_ret].
  - intros ref. apply sim_bind; [apply sim_thumbnail | intros _; apply sim_ret].
Qed.

Lemma sim_process_variant image key osz acc item :
  sim (process_variant e1 image key osz acc item)
      (process_variant e2 image key osz acc item).
Proof.
  pose proof Hsame as (_ & _ & _ & _ & _ & _ & Hb & _).
  unfold process_variant.
  apply sim_bind; [apply sim_resize_image | intros ref].
  apply sim_bind; [apply sim_Image_save | intros buffer].
  apply sim_bind; [apply sim_deref | intros resized].
  apply sim_bind; [apply sim_utcnow | intros now].
  apply sim_bind; [rewrite Hb; apply sim_put_object | intros _].
  apply sim_bind; [apply sim_logger_info | intros _; apply sim_ret].
Qed.

Lemma sim_process_image content key :
  sim (process_image e1 content key) (process_image e2 content key).
Proof.
  unfold process_image. apply sim_try_except.
  - apply sim_bind; [apply sim_Image_open | intros image].
    apply sim_bind; [apply sim_deref | intros im].
    apply sim_bind; [apply sim_logger_info | intros _].
    apply sim_for_fold. intros acc item. apply sim_process_variant.
  - intros e. apply sim_bind; [apply sim_logger_error | intros _; apply sim_raise].
Qed.

(** Both notifiers return, and the publish request touches neither the
    object store, nor the heap, nor the clock. *)
Lemma sim_send_notification key results :
  sim (send_notification e1 key results) (send_notification e2 key results).
Proof.
  intros s1 s2 (Hs3 & Hheap & Hclock).
  unfold send_notification, try_except, bind, utcnow_isoformat, publish,
    logger_info, logger_error.
  destruct (SNS_TOPIC_ARN e1) as [t1|], (SNS_TOPIC_ARN e2) as [t2|];
    repeat match goal with |- context [sns_accepts ?e ?t ?s ?m] =>
             destruct (sns_accepts e t s m) end;
    cbn [fst snd]; unfold same_inputs; cbn [s3 heap clock add_log add_call
                                            add_outbox tick];
    repeat split; congruence.
Qed.

Lemma sim_handle_record record :
  sim (handle_record e1 record) (handle_record e2 record).
Proof.
  unfold handle_record. apply sim_bind; [apply sim_logger_info | intros _].
  destruct (contains _ _); [apply sim_logger_info|].
  apply sim_bind; [apply sim_get_object | intros content].
  apply sim_bind; [apply sim_process_image | intros results].
  apply sim_bind; [apply sim_send_notification | intros _].
  apply sim_logger_info.
Qed.

Lemma sim_lambda_handler event :
  sim (lambda_handler e1 event) (lambda_handler e2 event).
Proof.
  unfold lambda_handler. apply sim_try_except.
  - apply sim_bind; [|intros _; apply sim_ret].
    apply sim_for_each. apply sim_handle_record.
  - intros e. apply sim_bind; [apply sim_logger_error | intros _; apply sim_raise].
Qed.

End SnsIndependence.

(** ** Strings and the size table *)

Lemma prefix_append (s rest : string) : String.prefix s (s +:+ rest) = true.
Proof.
  induction s as [|a s IH].
  - destruct rest; reflexivity.
  - change (String a s +:+ rest) with (String a (s +:+ rest)).
    cbn [String.prefix].
    destruct (Ascii.ascii_dec a a); [exact IH | congruence].
Qed.

Lemma contains_prefix (needle s : string) :
  String.prefix needle s = true -> contains needle s = true.
Proof. intros H. destruct s; cbn [contains]; rewrite H; reflexivity. Qed.

Lemma contains_append (needle before after : string) :
  contains needle (before +:+ needle +:+ after) = true.
Proof.
  induction before as [|a before IH].
  - change (contains needle (needle +:+ after) = true).
    apply contains_prefix, prefix_append.
  - change (String a before +:+ needle +:+ after)
      with (String a (before +:+ needle +:+ after)).
    cbn [contains]. rewrite IH. apply orb_true_r.
Qed.

(** The result mapping of a run over [SIZES], entry by entry. *)
Lemma collect_SIZES (env : Env) (key : string) (transparent : bool)
  (size : Z * Z) :
  let s1 := resized_size env (150, 150) size in
  let s2 := resized_size env (480, 480) (if transparent then size else s1) in
  let s3 := resized_size env (1024, 1024) (if transparent then size else s2) in
  collect key (variant_sizes env transparent size SIZES) []
  = [ variant_entry key "thumbnail" s1;
      variant_entry key "mobile" s2;
      variant_entry key "web" s3 ].
Proof. destruct transparent; reflexivity. Qed.

(** The writes of a run over [SIZES], one by one. *)
Lemma variant_puts_SIZES (env : Env) (key : string) (puts : list Call) :
  Forall2 (fun c e => variant_put env key (fst e) c) puts SIZES ->
  exists o1 o2 o3,
    puts = [ PutObject (PROCESSED_BUCKET env) (dest_key "thumbnail" key) o1;
             PutObject (PROCESSED_BUCKET env) (dest_key "mobile" key) o2;
             PutObject (PROCESSED_BUCKET env) (dest_key "web" key) o3 ].
Proof.
  unfold SIZES. intros H.
  apply Forall2_cons_inv_r in H as (c1 & r1 & [o1 ->] & H & ->).
  apply Forall2_cons_inv_r in H as (c2 & r2 & [o2 ->] & H & ->).
  apply Forall2_cons_inv_r in H as (c3 & r3 & [o3 ->] & H & ->).
  apply Forall2_nil_inv_r in H as ->.
  exists o1, o2, o3. reflexivity.
Qed.

(** Without transparency the later variants find an image that already
    fits their boxes. *)
Lemma in_place_sizes (env : Env) (size : Z * Z) :
  0 < fst size -> 0 < snd size ->
  let s1 := resized_size env (150, 150) size in
  resized_size env (480, 480) s1 = s1
  /\ resized_size env (1024, 1024) (resized_size env (480, 480) s1) = s1.
Proof.
  intros Hw Hh s1.
  destruct (resized_size_fits env (150, 150) size) as (_ & _ & [F1 F2] & _);
    try assumption; try reflexivity.
  fold s1 in F1, F2. cbn [fst snd] in F1, F2.
  assert (resized_size env (480, 480) s1 = s1) as E
    by (apply resized_size_noop; split; cbn [fst snd]; lia).
  split; [exact E|]. rewrite E.
  apply resized_size_noop; split; cbn [fst snd]; lia.
Qed.

(** A record that is fetched, decoded and processed without fault: the
    requests are the fetch, the three writes and one publish; every write
    is applied. *)
Lemma handle_record_processes (env : Env) record st o im :
  contains "processed/" (object_key record) = false ->
  readable env st (bucket_name record) (object_key record) = Some o ->
  image_open env (obj_body o) = Some im ->
  ~ generator_fault env ->
  exists st' puts message,
    handle_record env record st = (Return tt, st')
    /\ Forall2 (fun c e => variant_put env (object_key record) (fst e) c) puts SIZES
    /\ calls st' = calls st
                   ++ GetObject (bucket_name record) (object_key record) :: puts
                   ++ [Publish (SNS_TOPIC_ARN env)
                         ("Image Processed: " +:+ object_key record) message]
    /\ s3 st' = fold_left apply_put puts (s3 st)
    /\ outbox st' =
         match SNS_TOPIC_ARN env with
         | Some t =>
             if sns_accepts env t ("Image Processed: " +:+ object_key record) message
             then outbox st ++ [(t, "Image Processed: " +:+ object_key record, message)]
             else outbox st
         | None => outbox st
         end.
Proof.
  intros Hskip Hobj Hopen Hok.
  rewrite (handle_record_fetched env record st o Hskip Hobj).
  set (st0 := add_call _ _).
  destruct (process_image_run env (obj_body o) (object_key record) st0 im Hopen)
    as (out & st1 & puts & done & Hrun & Hout & Hcalls & Hputs & _ & Hfault & Hret).
  destruct out as [results|e]; [|destruct Hok; eauto].
  destruct (Hret results eq_refl) as (-> & Hs3 & _).
  rewrite (bind_run_return _ _ _ _ _ Hrun).
  destruct (send_notification_run env (object_key record) results st1)
    as (st2 & message & Hsend & Hcalls2 & Hs32 & Hout2).
  rewrite (bind_run_return _ _ _ _ _ Hsend).
  unfold logger_info. eexists _, puts, message. split; [reflexivity|].
  cbn [calls s3 outbox add_log]. split; [exact Hputs|].
  split; [|split].
  - rewrite Hcalls2, Hcalls. unfold st0; cbn [calls add_call add_log].
    rewrite <- !app_assoc. reflexivity.
  - rewrite Hs32, Hs3. reflexivity.
  - rewrite Hout2, Hout. reflexivity.
Qed.

(** ** When the generator returns *)

Section GeneratorReturns.

Variable env : Env.

(** [resize_image] in full: the size and the mode of the object returned,
    and what became of the caller's object. *)
Lemma resize_image_object image box st im :
  heap st !! image = Some im ->
  exists ref st' resized im',
    resize_image env image box st = (Return ref, st')
    /\ quiet st st' /\ clock st' = clock st
    /\ heap st' !! ref = Some resized
    /\ im_size resized = resized_size env box (im_size im)
    /\ im_mode resized = encoded_mode (im_mode im)
    /\ heap st' !! image = Some im'
    /\ im_mode im' = im_mode im
    /\ im_size im' = (if has_transparency (im_mode im) then im_size im
                      else resized_size env box (im_size im)).
Proof.
  intros Himage. unfold resize_image, encoded_mode.
  unfold bind at 1. unfold deref at 1. rewrite Himage; cbn [default from_option id].
  assert (image < length (heap st))%nat as Hlt
    by (apply lookup_lt_Some in Himage; exact Himage).
  destruct (has_transparency (im_mode im)).
  - set (canvas := {| im_format := None; im_mode := "RGB";
                      im_size := im_size im; im_data := _ |}).
    unfold bind at 1. unfold new_image at 1.
    set (st1 := set_heap _ st).
    assert (heap st1 !! length (heap st) = Some canvas) as Hnew
      by (apply list_lookup_middle; reflexivity).
    destruct (thumbnail_run env (length (heap st)) box st1 canvas Hnew)
      as (st' & Hrun & Hq & Hc & Hh).
    rewrite (bind_run_return _ _ _ _ _ Hrun). unfold ret.
    exists (length (heap st)), st', (thumbnail_image env box canvas), im.
    split; [reflexivity|]. split; [exact Hq|]. split; [exact Hc|].
    rewrite Hh. unfold st1; cbn [heap set_heap].
    split; [apply list_lookup_insert_eq; rewrite length_app; cbn; lia|].
    split; [rewrite thumbnail_image_size; reflexivity|].
    split; [apply thumbnail_image_mode|].
    split; [|split; reflexivity].
    rewrite list_lookup_insert_ne by lia.
    rewrite lookup_app_l by lia. exact Himage.
  - unfold bind at 1. unfold ret at 1.
    destruct (thumbnail_run env image box st im Himage)
      as (st' & Hrun & Hq & Hc & Hh).
    rewrite (bind_run_return _ _ _ _ _ Hrun). unfold ret.
    exists image, st', (thumbnail_image env box im), (thumbnail_image env box im).
    split; [reflexivity|]. split; [exact Hq|]. split; [exact Hc|].
    rewrite Hh, list_lookup_insert_eq by lia.
    repeat split; auto using thumbnail_image_size, thumbnail_image_mode.
Qed.

(** One iteration, in full: the image handed to the encoder has the
    thumbnail size and the encoded mode, and the outcome is decided by the
    encoder, by the destination bucket being configured and by S3 accepting
    the write. *)
Lemma process_variant_detail image key osz acc name box st im :
  heap st !! image = Some im ->
  exists out st' im' resized,
    process_variant env image key osz acc (name, box) st = (out, st')
    /\ heap st' !! image = Some im'
    /\ im_mode im' = im_mode im
    /\ im_size resized = resized_size env box (im_size im)
    /\ im_mode resized = encoded_mode (im_mode im)
    /\ match jpeg_save env 85 true resized with
       | None => exists msg, out = Raise (OSError msg)
       | Some buffer =>
           match PROCESSED_BUCKET env with
           | None => out = Raise ParamValidationError
           | Some b =>
               if s3_writable env b (dest_key name key)
               then out = Return
                            (dict_set name
                               {| info_size := im_size resized;
                                  info_key := dest_key name key |} acc)
               else out = Raise (ClientError "AccessDenied")
           end
       end.
Proof.
  intros Himage. unfold process_variant; cbn [fst snd].
  destruct (resize_image_object image box st im Himage)
    as (ref & st1 & resized & im' & Hrun & _ & _
        & Href & Hsize & Hmode & Him' & Hmode' & _).
  rewrite (bind_run_return _ _ _ _ _ Hrun).
  unfold Image_save. unfold bind at 1. unfold bind at 1. unfold deref at 1.
  rewrite Href; cbn [default from_option id].
  destruct (jpeg_save env 85 true resized) as [buffer|] eqn:Hsave.
  - unfold ret at 1. unfold bind at 1. unfold deref at 1.
    rewrite Href; cbn [default from_option id].
    unfold bind at 1. unfold utcnow_isoformat at 1.
    unfold bind at 1. unfold put_object at 1.
    fold (dest_key name key).
    destruct (PROCESSED_BUCKET env) as [b|] eqn:Hb.
    + destruct (s3_writable env b (dest_key name key)) eqn:Hw;
        eexists _, _, im', resized;
        (split; [reflexivity|]); rewrite Hsave, ?Hw; cbn [heap set_s3 add_call add_log];
        auto 10.
    + eexists _, _, im', resized.
      split; [reflexivity|]. rewrite Hsave. cbn [heap add_call]. auto 10.
  - unfold raise. eexists _, _, im', resized.
    split; [reflexivity|]. rewrite Hsave. eauto 12.
Qed.

(** [process_image] on bytes that decode: the loop over [SIZES] on the
    freshly opened image, an error being logged on its way out. *)
Lemma process_image_unfold content key st im :
  image_open env content = Some im ->
  process_image env content key st
  = match for_fold (process_variant env (length (heap st)) key (im_size im))
            SIZES []
            (add_log (INFO, "Original image: " +:+ str_size (im_size im)
                            +:+ ", Format: " +:+ str_opt (im_format im))
               (set_heap (fun h => h ++ [im]) st)) with
    | (Return res, st') => (Return res, st')
    | (Raise e, st') =>
        (Raise e, add_log (ERROR, "Error in process_image: " +:+ str_exn e) st')
    end.
Proof.
  intros Hopen. unfold process_image, try_except, Image_open. rewrite Hopen.
  unfold bind at 1. unfold new_image at 1.
  unfold bind at 1. unfold deref at 1.
  replace (heap (set_heap (fun h => h ++ [im]) st) !! length (heap st))
    with (Some im) by (symmetry; apply list_lookup_middle; reflexivity).
  cbn [default from_option id].
  unfold bind at 1. unfold logger_info at 1.
  destruct (for_fold _ _ _ _) as [[res|e] st']; reflexivity.
Qed.

(** The loop returns when the encoder takes images of the encoded mode,
    the destination bucket is configured and S3 accepts the write of every
    variant of the table. *)
Lemma variants_loop_returns image key osz table b :
  PROCESSED_BUCKET env = Some b ->
  (forall e, e ∈ table -> s3_writable env b (dest_key (fst e) key) = true) ->
  forall acc st im,
    heap st !! image = Some im ->
    (forall i, im_mode i = encoded_mode (im_mode im) ->
               jpeg_save env 85 true i <> None) ->
    exists res st',
      for_fold (process_variant env image key osz) table acc st = (Return res, st').
Proof.
  intros Hb. induction table as [|[name box] rest IH];
    intros Hw acc st im Himage Henc.
  - eexists _, _. reflexivity.
  - cbn [for_fold].
    destruct (process_variant_detail image key osz acc name box st im Himage)
      as (out & st1 & im1 & resized & Hrun & Him1 & Hmode1 & _ & Hmode & Hcase).
    destruct (jpeg_save env 85 true resized) as [buffer|] eqn:Hsave;
      [|destruct (Henc resized Hmode Hsave)].
    pose proof (Hw (name, box) (list_elem_of_here _ _)) as Hwn.
    cbn [fst] in Hwn. rewrite Hb, Hwn in Hcase. subst out.
    rewrite (bind_run_return _ _ _ _ _ Hrun).
    apply (IH (fun e He => Hw e (list_elem_of_further _ _ _ He)) _ st1 im1 Him1).
    rewrite Hmode1. exact Henc.
Qed.

Lemma process_image_returns_when content key st im b :
  image_open env content = Some im ->
  (forall i, im_mode i = encoded_mode (im_mode im) ->
             jpeg_save env 85 true i <> None) ->
  PROCESSED_BUCKET env = Some b ->
  (forall e, e ∈ SIZES -> s3_writable env b (dest_key (fst e) key) = true) ->
  exists results st', process_image env content key st = (Return results, st').
Proof.
  intros Hopen Henc Hb Hw.
  rewrite (process_image_unfold content key st im Hopen).
  set (st2 := add_log _ _).
  assert (heap st2 !! length (heap st) = Some im) as Himage
    by (apply list_lookup_middle; reflexivity).
  destruct (variants_loop_returns (length (heap st)) key (im_size im) SIZES b
              Hb Hw [] st2 im Himage Henc) as (res & st' & ->).
  eauto.
Qed.

(** A run of [process_image] that returns had a destination bucket. *)
Lemma process_image_returned_bucket content key st results st' :
  process_image env content key st = (Return results, st') ->
  exists b, PROCESSED_BUCKET env = Some b.
Proof.
  intros Hrun. destruct (image_open env content) as [im|] eqn:Hopen.
  - rewrite (process_image_unfold content key st im Hopen) in Hrun.
    set (st2 := add_log _ _) in Hrun.
    assert (heap st2 !! length (heap st) = Some im) as Himage
      by (apply list_lookup_middle; reflexivity).
    destruct (for_fold _ _ _ _) as [[res|e] st3] eqn:Hloop; [|discriminate].
    unfold SIZES in Hloop; cbn [for_fold] in Hloop.
    apply bind_return in Hloop as (acc1 & s1 & H1 & _).
    destruct (process_variant_detail (length (heap st)) key (im_size im) []
                "thumbnail" (150, 150) st2 im Himage)
      as (out & st1 & im1 & resized & Hrun1 & _ & _ & _ & _ & Hcase).
    rewrite H1 in Hrun1. injection Hrun1 as <- <-.
    destruct (jpeg_save env 85 true resized) as [buffer|];
      [|destruct Hcase; discriminate].
    destruct (PROCESSED_BUCKET env) as [b|]; [eauto | discriminate].
  - destruct (process_image_undecodable env content key st Hopen) as (st1 & E & _).
    congruence.
Qed.

(** A record that is fetched and whose generator run returns: what is left
    is the notification. *)
Lemma handle_record_after_generator record st o results st1 :
  contains "processed/" (object_key record) = false ->
  readable env st (bucket_name record) (object_key record) = Some o ->
  process_image env (obj_body o) (object_key record)
    (add_call (GetObject (bucket_name record) (object_key record))
       (add_log (INFO, "Processing image: " +:+ object_key record
                       +:+ " from bucket: " +:+ bucket_name record) st))
  = (Return results, st1) ->
  exists st' message,
    handle_record env record st = (Return tt, st')
    /\ calls st' = calls st1
         ++ [Publish (SNS_TOPIC_ARN env)
               ("Image Processed: " +:+ object_key record) message]
    /\ s3 st' = s3 st1
    /\ outbox st' =
         match SNS_TOPIC_ARN env with
         | Some t =>
             if sns_accepts env t ("Image Processed: " +:+ object_key record) message
             then outbox st1
                  ++ [(t, "Image Processed: " +:+ object_key record, message)]
             else outbox st1
         | None => outbox st1
         end.
Proof.
  intros Hskip Hobj Hrun.
  rewrite (handle_record_fetched env record st o Hskip Hobj).
  rewrite (bind_run_return _ _ _ _ _ Hrun).
  destruct (send_notification_run env (object_key record) results st1)
    as (st2 & message & Hsend & Hcalls & Hs3 & Hout).
  rewrite (bind_run_return _ _ _ _ _ Hsend).
  unfold logger_info. eexists _, message. split; [reflexivity|].
  cbn [calls s3 outbox add_log]. auto.
Qed.

(** An iteration that returns for a key without [processed/]: the object
    was fetched and the generator returned on its bytes. *)
Lemma handle_record_returned record st st' :
  contains "processed/" (object_key record) = false ->
  handle_record env record st = (Return tt, st') ->
  exists o results st1,
    readable env st (bucket_name record) (object_key record) = Some o
    /\ process_image env (obj_body o) (object_key record)
         (add_call (GetObject (bucket_name record) (object_key record))
            (add_log (INFO, "Processing image: " +:+ object_key record
                            +:+ " from bucket: " +:+ bucket_name record) st))
       = (Return results, st1).
Proof.
  intros Hskip Hrun.
  destruct (readable env st (bucket_name record) (object_key record))
    as [o|] eqn:Hread.
  - rewrite (handle_record_fetched env record st o Hskip Hread) in Hrun.
    apply bind_return in Hrun as (results & st1 & Hgen & _). eauto.
  - destruct (handle_record_fetch_fails env record st Hskip Hread) as (st1 & E & _).
    congruence.
Qed.

End GeneratorReturns.

(** The sizes of the variants of a 2000×1000 source, whatever the tie. *)
Lemma sizes_of_2000x1000 (env : Env) :
  resized_size env (150, 150) (2000, 1000) = (150, 75)
  /\ resized_size env (480, 480) (2000, 1000) = (480, 240)
  /\ resized_size env (1024, 1024) (2000, 1000) = (1024, 512).
Proof.
  unfold resized_size.
  repeat apply conj;
    match goal with |- context [float_tie ?e ?b ?s] => destruct (float_tie e b s) end;
    vm_compute; reflexivity.
Qed.

(** * The claims *)

(** What a returning run of [process_image] looks like: the bytes decoded,
    and the result mapping is the one of [collect_SIZES]. *)
Lemma process_image_returned (env : Env) content key st results st' :
  process_image env content key st = (Return results, st') ->
  exists im puts,
    image_open env content = Some im
    /\ results = collect key
                   (variant_sizes env (has_transparency (im_mode im)) (im_size im) SIZES) []
    /\ calls st' = calls st ++ puts
    /\ Forall2 (fun c e => variant_put env key (fst e) c) puts SIZES
    /\ s3 st' = fold_left apply_put puts (s3 st)
    /\ outbox st' = outbox st.
Proof.
  intros Hrun. destruct (image_open env content) as [im|] eqn:Hopen.
  - destruct (process_image_run env content key st im Hopen)
      as (out & st1 & puts & done & Hrun' & Hout & Hcalls & Hputs & _ & _ & Hret).
    rewrite Hrun in Hrun'. injection Hrun' as <- <-.
    destruct (Hret results eq_refl) as (-> & Hs3 & ->).
    exists im, puts. auto 10.
  - destruct (process_image_undecodable env content key st Hopen) as (st1 & Hrun' & _).
    congruence.
Qed.

(** C3. Whenever the variant generator returns, the keys of the result
    mapping are exactly those of the size table, in the table's order
    (thumbnail, mobile, web): no run that returns has left a variant out. *)
Theorem result_keys_are_table_keys (env : Env) content key st results st' :
  process_image env content key st = (Return results, st') ->
  map fst results = map fst SIZES
  /\ map fst results = ["thumbnail"; "mobile"; "web"].
Proof.
  intros Hrun.
  destruct (process_image_returned env content key st results st' Hrun)
    as (im & puts & _ & -> & _).
  rewrite (collect_SIZES env). split; reflexivity.
Qed.

(** C2. Every variant of a decoded image of positive size has positive
    sides, fits the bounding box the table gives it, is no larger than the
    source on either side, and has the aspect ratio of the source up to the
    rounding of one side to a whole pixel. *)
Theorem variants_fit_their_boxes (env : Env) content key st results st' im :
  image_open env content = Some im ->
  0 < fst (im_size im) -> 0 < snd (im_size im) ->
  process_image env content key st = (Return results, st') ->
  forall name box, (name, box) ∈ SIZES ->
    exists info,
      dict_get name results = Some info
      /\ 0 < fst (info_size info)
      /\ 0 < snd (info_size info)
      /\ fst (info_size info) <= fst box
      /\ snd (info_size info) <= snd box
      /\ fst (info_size info) <= fst (im_size im)
      /\ snd (info_size info) <= snd (im_size im)
      /\ aspect_within_rounding (im_size im) (info_size info).
Proof.
  intros Hopen Hw Hh Hrun name box Hin.
  destruct (process_image_returned env content key st results st' Hrun)
    as (im' & puts & Hopen' & -> & _).
  rewrite Hopen in Hopen'. injection Hopen' as <-.
  rewrite (collect_SIZES env).
  destruct (resized_size_fits env (150, 150) (im_size im))
    as (A4 & A5 & [A1 A2] & [A6 A7] & A3); try assumption; try reflexivity.
  destruct (resized_size_fits env (480, 480) (im_size im))
    as (B4 & B5 & [B1 B2] & [B6 B7] & B3); try assumption; try reflexivity.
  destruct (resized_size_fits env (1024, 1024) (im_size im))
    as (C4 & C5 & [C1 C2] & [C6 C7] & C3); try assumption; try reflexivity.
  destruct (in_place_sizes env (im_size im) Hw Hh) as [E2 E3].
  cbn [fst snd] in *.
  unfold SIZES in Hin. rewrite !elem_of_cons, elem_of_nil in Hin.
  destruct (has_transparency (im_mode im)); rewrite ?E3, ?E2;
    destruct Hin as [[= -> ->]|[[= -> ->]|[[= -> ->]|[]]]];
    (eexists; split; [reflexivity|]); cbn [info_size fst snd];
    repeat apply conj; solve [assumption | lia].
Qed.

(** With transparency [resize_image] works on a fresh canvas each time, and
    a variant whose box holds the source keeps the source's size. *)
Lemma no_upscaling_with_transparency (env : Env) content key st results st' im :
  image_open env content = Some im ->
  has_transparency (im_mode im) = true ->
  process_image env content key st = (Return results, st') ->
  forall name box, (name, box) ∈ SIZES ->
    fits box (im_size im) ->
    info_size <$> dict_get name results = Some (im_size im).
Proof.
  intros Hopen Htr Hrun name box Hin Hfits.
  destruct (process_image_returned env content key st results st' Hrun)
    as (im' & puts & Hopen' & -> & _).
  rewrite Hopen in Hopen'. injection Hopen' as <-.
  rewrite (collect_SIZES env), Htr.
  unfold SIZES in Hin. rewrite !elem_of_cons, elem_of_nil in Hin.
  destruct Hin as [[= -> ->]|[[= -> ->]|[[= -> ->]|[]]]];
    cbn [dict_get variant_entry String.eqb Ascii.eqb Bool.eqb fmap option_fmap
           option_map info_size];
    rewrite (resized_size_noop env _ _ Hfits); reflexivity.
Qed.

(** C1. An RGB source of 200×200 pixels fits the 480×480 box of the mobile
    variant, yet the mobile variant comes out at 150×150: the thumbnail
    pass has already shrunk the one image object the loop works on. *)
Theorem mobile_variant_of_rgb_200x200 :
  fits (480, 480) (200, 200)
  /\ exists results st',
       process_image (sample_env rgb_200x200 true)
         [Byte.x89] "photo.jpg" (sample_state []) = (Return results, st')
       /\ info_size <$> dict_get "mobile" results = Some (150, 150)
       /\ info_size <$> dict_get "web" results = Some (150, 150).
Proof.
  split; [split; cbn; lia|].
  eexists _, _. split; [vm_compute; reflexivity|].
  split; reflexivity.
Qed.

(** C10. For a decoded image whose mode is none of RGBA, LA and P and which
    exceeds the thumbnail box, [resize_image] hands back the reference it
    was given, and the three entries have one and the same size: a size
    that fits the thumbnail box and touches it on one side, which is not
    the size the mobile box or the web box would give the source, whatever
    the rounding at a tie. *)
Theorem later_variants_repeat_thumbnail (env : Env) content key st results st' im :
  image_open env content = Some im ->
  has_transparency (im_mode im) = false ->
  0 < fst (im_size im) -> 0 < snd (im_size im) ->
  150 < fst (im_size im) \/ 150 < snd (im_size im) ->
  process_image env content key st = (Return results, st') ->
  (forall image box st0,
     heap st0 !! image = Some im ->
     fst (resize_image env image box st0) = Return image)
  /\ exists t,
       results = [ variant_entry key "thumbnail" t;
                   variant_entry key "mobile" t;
                   variant_entry key "web" t ]
       /\ 0 < fst t /\ 0 < snd t
       /\ fits (150, 150) t
       /\ (fst t = 150 \/ snd t = 150)
       /\ aspect_within_rounding (im_size im) t
       /\ forall tie,
            t <> Pillow.thumbnail_size tie (480, 480) (im_size im)
            /\ t <> Pillow.thumbnail_size tie (1024, 1024) (im_size im).
Proof.
  intros Hopen Htr Hw Hh Hbig Hrun.
  split.
  { intros image box st0 Himage. unfold resize_image, bind, deref.
    rewrite Himage; cbn [default from_option id]. rewrite Htr. unfold ret at 1.
    destruct (thumbnail_run env image box st0 im Himage) as (st1 & -> & _).
    reflexivity. }
  destruct (process_image_returned env content key st results st' Hrun)
    as (im' & puts & Hopen' & -> & _).
  rewrite Hopen in Hopen'. injection Hopen' as <-.
  rewrite (collect_SIZES env), Htr.
  destruct (in_place_sizes env (im_size im) Hw Hh) as [E2 E3].
  set (t := resized_size env (150, 150) (im_size im)) in *.
  rewrite E3, E2. exists t. split; [reflexivity|].
  destruct (resized_size_fits env (150, 150) (im_size im))
    as (P1 & P2 & [A1 A2] & _ & A3); try assumption; try reflexivity.
  fold t in P1, P2, A1, A2, A3. cbn [fst snd] in A1, A2.
  split; [exact P1|]. split; [exact P2|]. split; [split; assumption|].
  split.
  { destruct (resized_size_touches env (150, 150) (im_size im)) as [T|T];
      try assumption; try reflexivity; [unfold fits; cbn [fst snd]; lia | |];
      fold t in T; cbn [fst snd] in T; auto. }
  split; [exact A3|].
  assert (forall tie b, 480 <= b ->
            t <> Pillow.thumbnail_size tie (b, b) (im_size im)) as Hfresh.
  { intros tie b Hb Heq.
    destruct (Z_le_dec (fst (im_size im)) b) as [Hfw|Hfw];
      [destruct (Z_le_dec (snd (im_size im)) b) as [Hfh|Hfh]|].
    - rewrite (thumbnail_size_noop tie (b, b) (im_size im)) in Heq
        by (split; assumption).
      rewrite <- Heq in Hbig. lia.
    - destruct (thumbnail_size_touches tie (b, b) (im_size im)) as [T|T];
        cbn [fst snd]; try lia; [unfold fits; cbn [fst snd]; lia | |];
        rewrite <- Heq in T; cbn [fst snd] in T; lia.
    - destruct (thumbnail_size_touches tie (b, b) (im_size im)) as [T|T];
        cbn [fst snd]; try lia; [unfold fits; cbn [fst snd]; lia | |];
        rewrite <- Heq in T; cbn [fst snd] in T; lia. }
  intros tie. split; apply Hfresh; lia.
Qed.

(** C4. One record with key [vacation.png] whose object is read and decodes
    to a 2000×1000 RGBA image, with an encoder that takes RGB images, a
    destination bucket that accepts the three variants of this key and a
    topic that accepts the notification of this key: the generator returns
    three entries, of sizes 150×75, 480×240 and 1024×512; the handler
    returns the success response after one fetch, three writes, to
    [processed/thumbnail/vacation.png], [processed/mobile/vacation.png] and
    [processed/web/vacation.png], all applied to the store, and one
    publish, which SNS accepts. *)
Theorem vacation_scenario (env : Env) record st o im bucket topic :
  object_key record = "vacation.png" ->
  readable env st (bucket_name record) "vacation.png" = Some o ->
  image_open env (obj_body o) = Some im ->
  im_mode im = "RGBA" -> im_size im = (2000, 1000) ->
  (forall i, im_mode i = "RGB" -> jpeg_save env 85 true i <> None) ->
  PROCESSED_BUCKET env = Some bucket ->
  s3_writable env bucket "processed/thumbnail/vacation.png" = true ->
  s3_writable env bucket "processed/mobile/vacation.png" = true ->
  s3_writable env bucket "processed/web/vacation.png" = true ->
  SNS_TOPIC_ARN env = Some topic ->
  (forall message,
     sns_accepts env topic "Image Processed: vacation.png" message = true) ->
  (forall st0, exists st1,
     process_image env (obj_body o) "vacation.png" st0
     = (Return
          [ ("thumbnail", {| info_size := (150, 75);
                             info_key := "processed/thumbnail/vacation.png" |});
            ("mobile", {| info_size := (480, 240);
                          info_key := "processed/mobile/vacation.png" |});
            ("web", {| info_size := (1024, 512);
                       info_key := "processed/web/vacation.png" |}) ], st1))
  /\ exists st' o1 o2 o3 message,
       lambda_handler env [record] st = (Return success_response, st')
       /\ calls st' = calls st
            ++ [ GetObject (bucket_name record) "vacation.png";
                 PutObject (Some bucket) "processed/thumbnail/vacation.png" o1;
                 PutObject (Some bucket) "processed/mobile/vacation.png" o2;
                 PutObject (Some bucket) "processed/web/vacation.png" o3;
                 Publish (Some topic) "Image Processed: vacation.png" message ]
       /\ s3 st' = <[(bucket, "processed/web/vacation.png") := o3]>
                     (<[(bucket, "processed/mobile/vacation.png") := o2]>
                        (<[(bucket, "processed/thumbnail/vacation.png") := o1]>
                           (s3 st)))
       /\ outbox st' = outbox st
            ++ [(topic, "Image Processed: vacation.png", message)].
Proof.
  intros Hkey Hobj Hopen Hmode Hsize Henc Hbucket Hw1 Hw2 Hw3 Htopic Hsns.
  assert (forall i, im_mode i = encoded_mode (im_mode im) ->
                    jpeg_save env 85 true i <> None) as Henc'
    by (rewrite Hmode; exact Henc).
  assert (forall e, e ∈ SIZES ->
                    s3_writable env bucket (dest_key (fst e) "vacation.png") = true)
    as Hw.
  { intros e He. unfold SIZES in He. rewrite !elem_of_cons, elem_of_nil in He.
    destruct He as [->|[->|[->|[]]]]; assumption. }
  assert (forall st0, exists st1 puts,
            process_image env (obj_body o) "vacation.png" st0
            = (Return
                 [ variant_entry "vacation.png" "thumbnail" (150, 75);
                   variant_entry "vacation.png" "mobile" (480, 240);
                   variant_entry "vacation.png" "web" (1024, 512) ], st1)
            /\ calls st1 = calls st0 ++ puts
            /\ Forall2 (fun c e => variant_put env "vacation.png" (fst e) c) puts SIZES
            /\ s3 st1 = fold_left apply_put puts (s3 st0)
            /\ outbox st1 = outbox st0) as Hgen.
  { intros st0.
    destruct (process_image_returns_when env (obj_body o) "vacation.png" st0 im
                bucket Hopen Henc' Hbucket Hw) as (results & st1 & Hrun).
    destruct (process_image_returned env _ _ _ _ _ Hrun)
      as (im' & puts & Hopen' & Hres & Hcalls & Hputs & Hs3 & Hout).
    rewrite Hopen in Hopen'. injection Hopen' as <-.
    exists st1, puts. split; [|auto]. rewrite Hrun. f_equal. f_equal.
    rewrite Hres, (collect_SIZES env), Hmode, Hsize.
    change (has_transparency "RGBA") with true. cbv zeta iota.
    destruct (sizes_of_2000x1000 env) as (-> & -> & ->). reflexivity. }
  split.
  - intros st0. destruct (Hgen st0) as (st1 & puts & Hrun & _). eauto.
  - assert (contains "processed/" (object_key record) = false) as Hskip
      by (rewrite Hkey; vm_compute; reflexivity).
    rewrite <- Hkey in Hobj.
    set (st0 := add_call (GetObject (bucket_name record) (object_key record))
                  (add_log (INFO, "Processing image: " +:+ object_key record
                                  +:+ " from bucket: " +:+ bucket_name record) st)).
    destruct (Hgen st0) as (st1 & puts & Hrun & Hcalls & Hputs & Hs3 & Hout).
    rewrite <- Hkey in Hrun at 1.
    destruct (handle_record_after_generator env record st o _ st1 Hskip Hobj Hrun)
      as (st' & message & Hrec & Hcalls' & Hs3' & Hout').
    apply variant_puts_SIZES in Hputs as (o1 & o2 & o3 & ->).
    rewrite Hbucket in *. rewrite Htopic in Hcalls', Hout'.
    rewrite Hkey in Hcalls', Hout'. rewrite Hsns in Hout'.
    exists st', o1, o2, o3, message.
    split.
    { apply lambda_handler_returns. cbn [for_each].
      rewrite (bind_run_return _ _ _ _ _ Hrec). reflexivity. }
    split; [rewrite Hcalls', Hcalls; unfold st0; cbn [calls add_call add_log];
            rewrite Hkey, <- !app_assoc; reflexivity|].
    split; [rewrite Hs3', Hs3; reflexivity|].
    rewrite Hout', Hout. reflexivity.
Qed.

(** C5. A record whose key starts with [processed/] is skipped: its
    iteration returns with no request issued and no store changed, so an
    invocation on such a key alone returns the success response and leaves
    the object store, the requests and the outbox as they were. *)
Theorem processed_prefix_is_skipped (env : Env) record st :
  String.prefix "processed/" (object_key record) = true ->
  (exists st',
     handle_record env record st = (Return tt, st')
     /\ s3 st' = s3 st /\ calls st' = calls st /\ outbox st' = outbox st)
  /\ (exists st',
        lambda_handler env [record] st = (Return success_response, st')
        /\ s3 st' = s3 st /\ calls st' = calls st /\ outbox st' = outbox st).
Proof.
  intros Hprefix. apply contains_prefix in Hprefix.
  destruct (handle_record_skips env record st Hprefix)
    as (st' & Hrun & (Hs3 & Hcalls & Hout) & _).
  split; exists st'; (split; [|auto]); [exact Hrun|].
  apply lambda_handler_returns. cbn [for_each].
  rewrite (bind_run_return _ _ _ _ _ Hrun). reflexivity.
Qed.

(** C9. The test is for a substring: a record whose key has [processed/]
    anywhere in it, as in [photos/processed/pic.png], is skipped with no
    request issued and no store changed. *)
Theorem processed_substring_is_skipped (env : Env) record st before after :
  object_key record = before +:+ "processed/" +:+ after ->
  exists st',
    handle_record env record st = (Return tt, st')
    /\ s3 st' = s3 st /\ calls st' = calls st /\ outbox st' = outbox st
    /\ filter is_get (calls st') = filter is_get (calls st)
    /\ filter is_put (calls st') = filter is_put (calls st).
Proof.
  intros Hkey.
  assert (contains "processed/" (object_key record) = true) as Hskip
    by (rewrite Hkey; apply contains_append).
  destruct (handle_record_skips env record st Hskip)
    as (st' & Hrun & (Hs3 & Hcalls & Hout) & _).
  exists st'. rewrite Hcalls. auto 10.
Qed.

(** C6. In a run of the generator that returns, the entry recorded for each
    variant [v] of the table has the key [processed/v/k], and the writes
    sent are, in the table's order, one to [processed/v/k] for each [v]. *)
Theorem destination_keys (env : Env) content k st results st' :
  process_image env content k st = (Return results, st') ->
  (forall v box, (v, box) ∈ SIZES ->
     info_key <$> dict_get v results = Some ("processed/" +:+ v +:+ "/" +:+ k))
  /\ exists puts,
       calls st' = calls st ++ puts
       /\ map put_key puts
          = map (fun e => Some ("processed/" +:+ fst e +:+ "/" +:+ k)) SIZES
       /\ forallb is_put puts = true.
Proof.
  intros Hrun.
  destruct (process_image_returned env content k st results st' Hrun)
    as (im & puts & _ & -> & Hcalls & Hputs & _).
  split.
  - intros v box Hin. rewrite (collect_SIZES env).
    unfold SIZES in Hin. rewrite !elem_of_cons, elem_of_nil in Hin.
    destruct Hin as [[= -> ->]|[[= -> ->]|[[= -> ->]|[]]]]; reflexivity.
  - exists puts. split; [exact Hcalls|].
    apply variant_puts_SIZES in Hputs as (o1 & o2 & o3 & ->).
    split; reflexivity.
Qed.

(** C8. When the fetch of a record fails after the records before it went
    through, the invocation raises the fetch error: no response is
    returned, and the requests issued end with that one fetch, so nothing
    is fetched, written or published for the records after it and the
    fetch is not tried again. *)
Theorem fetch_failure_aborts_invocation (env : Env) pre record post st st1 :
  for_each (handle_record env) pre st = (Return tt, st1) ->
  contains "processed/" (object_key record) = false ->
  readable env st1 (bucket_name record) (object_key record) = None ->
  exists st',
    lambda_handler env (pre ++ record :: post) st
    = (Raise (fetch_error env (bucket_name record) (object_key record)), st')
    /\ calls st' = calls st1
                   ++ [GetObject (bucket_name record) (object_key record)]
    /\ s3 st' = s3 st1
    /\ outbox st' = outbox st1.
Proof.
  intros Hpre Hskip Hmiss.
  destruct (handle_record_fetch_fails env record st1 Hskip Hmiss)
    as (st2 & Hrun & Hcalls & Hs3 & Hout).
  rewrite (lambda_handler_raises env pre record post st st1 _ st2 Hpre Hrun).
  eexists. split; [reflexivity|]. cbn [calls s3 outbox add_log]. auto.
Qed.

(** C7. [send_notification] never raises, and what SNS answers has no
    bearing on the outcome of an invocation: two environments that differ
    only in the topic and in the answers of SNS give the same outcome, a
    returned response always carries status 200, and a record that is
    fetched, decoded and processed without fault gives the success
    response whether or not the publish goes through.  A record whose
    fetch fails, or whose bytes are not an image, makes the invocation
    raise that error. *)
Theorem notification_failure_is_swallowed (e1 e2 : Env) event st :
  same_but_sns e1 e2 ->
  (forall key results st0, fst (send_notification e1 key results st0) = Return tt)
  /\ fst (lambda_handler e1 event st) = fst (lambda_handler e2 event st)
  /\ (forall response,
        fst (lambda_handler e1 event st) = Return response ->
        statusCode response = 200)
  /\ (forall record o im,
        event = [record] ->
        contains "processed/" (object_key record) = false ->
        readable e1 st (bucket_name record) (object_key record) = Some o ->
        image_open e1 (obj_body o) = Some im ->
        ~ generator_fault e1 ->
        fst (lambda_handler e1 event st) = Return success_response)
  /\ (forall pre record post st1,
        event = pre ++ record :: post ->
        for_each (handle_record e1) pre st = (Return tt, st1) ->
        contains "processed/" (object_key record) = false ->
        (readable e1 st1 (bucket_name record) (object_key record) = None ->
         fst (lambda_handler e1 event st)
         = Raise (fetch_error e1 (bucket_name record) (object_key record)))
        /\ (forall o,
              readable e1 st1 (bucket_name record) (object_key record) = Some o ->
              image_open e1 (obj_body o) = None ->
              fst (lambda_handler e1 event st) = Raise UnidentifiedImageError)).
Proof.
  intros Hsame. split; [|split; [|split; [|split]]].
  - intros key results st0.
    destruct (send_notification_run e1 key results st0) as (st' & m & -> & _).
    reflexivity.
  - apply (sim_lambda_handler e1 e2 Hsame event st st). repeat split.
  - intros response Hret.
    destruct (lambda_handler e1 event st) as [out st'] eqn:Hrun.
    cbn [fst] in Hret. subst out.
    apply lambda_handler_status in Hrun as ->. reflexivity.
  - intros record o im -> Hskip Hobj Hopen Hok.
    destruct (handle_record_processes e1 record st o im Hskip Hobj Hopen Hok)
      as (st' & puts & message & Hrun & _).
    rewrite (lambda_handler_returns e1 [record] st st'); [reflexivity|].
    cbn [for_each]. rewrite (bind_run_return _ _ _ _ _ Hrun). reflexivity.
  - intros pre record post st1 -> Hpre Hskip. split.
    + intros Hmiss.
      destruct (handle_record_fetch_fails e1 record st1 Hskip Hmiss)
        as (st2 & Hrun & _).
      rewrite (lambda_handler_raises e1 pre record post st st1 _ st2 Hpre Hrun).
      reflexivity.
    + intros o Hobj Hopen.
      destruct (handle_record_decode_fails e1 record st1 o Hskip Hobj Hopen)
        as (st2 & Hrun & _).
      rewrite (lambda_handler_raises e1 pre record post st st1 _ st2 Hpre Hrun).
      reflexivity.
Qed.

(** * The claims on concrete runs *)

Lemma sample_env_no_fault (im : Image) (sns_up : bool) :
  ~ generator_fault (sample_env im sns_up).
Proof.
  intros [[i H]|[H|(b & k & _ & H)]]; discriminate.
Defined.

Lemma returned_run {A} (run : Outcome A * State) (d a : A) :
  fst run = Return a -> run = (Return (returned run d), snd run).
Proof.
  destruct run as [out st]; unfold returned; cbn. intros ->. reflexivity.
Defined.

Lemma vacation_run_returns :
  vacation_run = (Return (returned vacation_run []), snd vacation_run).
Proof.
  apply (returned_run vacation_run [] (returned vacation_run [])).
  vm_compute. reflexivity.
Defined.

Lemma photo_run_returns :
  photo_run = (Return (returned photo_run []), snd photo_run).
Proof.
  apply (returned_run photo_run [] (returned photo_run [])).
  vm_compute. reflexivity.
Defined.

Lemma result_keys_witness :
  map fst (returned vacation_run []) = ["thumbnail"; "mobile"; "web"].
Proof.
  exact (proj2 (result_keys_are_table_keys (sample_env rgba_2000x1000 true)
                  [Byte.x89] "vacation.png" vacation_state
                  (returned vacation_run []) (snd vacation_run)
                  vacation_run_returns)).
Defined.

Lemma variants_fit_witness :
  exists info,
    dict_get "mobile" (returned vacation_run []) = Some info
    /\ 0 < fst (info_size info)
    /\ 0 < snd (info_size info)
    /\ fst (info_size info) <= 480
    /\ snd (info_size info) <= 480
    /\ fst (info_size info) <= 2000
    /\ snd (info_size info) <= 1000
    /\ aspect_within_rounding (2000, 1000) (info_size info).
Proof.
  apply (variants_fit_their_boxes (sample_env rgba_2000x1000 true)
           [Byte.x89] "vacation.png" vacation_state
           (returned vacation_run []) (snd vacation_run) rgba_2000x1000
           eq_refl eq_refl eq_refl vacation_run_returns "mobile" (480, 480)).
  do 2 constructor.
Defined.

Lemma vacation_scenario_witness :
  exists st' o1 o2 o3 message,
    lambda_handler (pillow_like_env rgba_2000x1000) [vacation] vacation_state
    = (Return success_response, st')
    /\ calls st' = calls vacation_state
         ++ [ GetObject "uploads" "vacation.png";
              PutObject (Some "processed-bucket")
                "processed/thumbnail/vacation.png" o1;
              PutObject (Some "processed-bucket")
                "processed/mobile/vacation.png" o2;
              PutObject (Some "processed-bucket")
                "processed/web/vacation.png" o3;
              Publish (Some "arn:aws:sns:us-east-1:000000000000:images")
                "Image Processed: vacation.png" message ]
    /\ s3 st' = <[("processed-bucket", "processed/web/vacation.png") := o3]>
                  (<[("processed-bucket", "processed/mobile/vacation.png") := o2]>
                     (<[("processed-bucket", "processed/thumbnail/vacation.png")
                        := o1]>
                        (s3 vacation_state)))
    /\ outbox st' = outbox vacation_state
         ++ [("arn:aws:sns:us-east-1:000000000000:images",
              "Image Processed: vacation.png", message)].
Proof.
  refine (proj2 (vacation_scenario (pillow_like_env rgba_2000x1000) vacation
                   vacation_state (upload [Byte.x89]) rgba_2000x1000
                   "processed-bucket"
                   "arn:aws:sns:us-east-1:000000000000:images"
                   _ _ _ _ _ _ _ _ _ _ _ _)).
  - reflexivity.
  - vm_compute. reflexivity.
  - reflexivity.
  - reflexivity.
  - reflexivity.
  - intros i Hi. cbn [pillow_like_env jpeg_save]. rewrite Hi.
    vm_compute. discriminate.
  - reflexivity.
  - vm_compute. reflexivity.
  - vm_compute. reflexivity.
  - vm_compute. reflexivity.
  - reflexivity.
  - intros message. reflexivity.
Defined.

Lemma processed_prefix_witness :
  String.prefix "processed/" (object_key already_processed) = true
  /\ exists st',
       lambda_handler (sample_env rgba_2000x1000 true) [already_processed]
         vacation_state = (Return success_response, st')
       /\ s3 st' = s3 vacation_state
       /\ calls st' = calls vacation_state
       /\ outbox st' = outbox vacation_state.
Proof.
  split; [vm_compute; reflexivity|].
  apply (processed_prefix_is_skipped (sample_env rgba_2000x1000 true)
           already_processed vacation_state).
  vm_compute. reflexivity.
Defined.

Lemma processed_substring_witness :
  String.prefix "processed/" (object_key nested_processed) = false
  /\ exists st',
       handle_record (sample_env rgba_2000x1000 true) nested_processed
         vacation_state = (Return tt, st')
       /\ s3 st' = s3 vacation_state
       /\ calls st' = calls vacation_state
       /\ outbox st' = outbox vacation_state
       /\ filter is_get (calls st') = filter is_get (calls vacation_state)
       /\ filter is_put (calls st') = filter is_put (calls vacation_state).
Proof.
  split; [vm_compute; reflexivity|].
  apply (processed_substring_is_skipped (sample_env rgba_2000x1000 true)
           nested_processed vacation_state "photos/" "pic.png").
  reflexivity.
Defined.

Lemma destination_keys_witness :
  info_key <$> dict_get "web" (returned vacation_run [])
  = Some "processed/web/vacation.png".
Proof.
  apply (proj1 (destination_keys (sample_env rgba_2000x1000 true)
                  [Byte.x89] "vacation.png" vacation_state
                  (returned vacation_run []) (snd vacation_run)
                  vacation_run_returns) "web" (1024, 1024)).
  do 3 constructor.
Defined.

Lemma notification_failure_witness :
  fst (lambda_handler (sample_env rgba_2000x1000 false) [vacation] vacation_state)
  = fst (lambda_handler (sample_env rgba_2000x1000 true) [vacation] vacation_state)
  /\ fst (lambda_handler (sample_env rgba_2000x1000 false) [vacation] vacation_state)
     = Return success_response
  /\ outbox (snd (lambda_handler (sample_env rgba_2000x1000 false) [vacation]
                    vacation_state)) = [].
Proof.
  assert (same_but_sns (sample_env rgba_2000x1000 false)
            (sample_env rgba_2000x1000 true)) as Hsame
    by (repeat split; reflexivity).
  destruct (notification_failure_is_swallowed _ _ [vacation] vacation_state Hsame)
    as (_ & Hsim & _ & Hok & _).
  split; [exact Hsim|]. split.
  - apply (Hok vacation (upload [Byte.x89]) rgba_2000x1000).
    + reflexivity.
    + vm_compute. reflexivity.
    + vm_compute. reflexivity.
    + reflexivity.
    + apply sample_env_no_fault.
  - vm_compute. reflexivity.
Defined.

Lemma fetch_failure_witness :
  exists st',
    lambda_handler (sample_env rgba_2000x1000 true) [missing; vacation]
      vacation_state = (Raise (ClientError "NoSuchKey"), st')
    /\ calls st' = [GetObject "uploads" "missing.png"]
    /\ s3 st' = s3 vacation_state
    /\ outbox st' = [].
Proof.
  apply (fetch_failure_aborts_invocation (sample_env rgba_2000x1000 true)
           [] missing [vacation] vacation_state vacation_state).
  - reflexivity.
  - vm_compute. reflexivity.
  - vm_compute. reflexivity.
Defined.

Lemma later_variants_witness :
  exists t,
    returned photo_run []
    = [ variant_entry "photo.jpg" "thumbnail" t;
        variant_entry "photo.jpg" "mobile" t;
        variant_entry "photo.jpg" "web" t ]
    /\ 0 < fst t /\ 0 < snd t
    /\ fits (150, 150) t
    /\ (fst t = 150 \/ snd t = 150)
    /\ aspect_within_rounding (200, 200) t
    /\ forall tie,
         t <> Pillow.thumbnail_size tie (480, 480) (200, 200)
         /\ t <> Pillow.thumbnail_size tie (1024, 1024) (200, 200).
Proof.
  refine (proj2 (later_variants_repeat_thumbnail (sample_env rgb_200x200 true)
                   [Byte.x89] "photo.jpg" (sample_state [])
                   (returned photo_run []) (snd photo_run) rgb_200x200
                   _ _ _ _ _ _)).
  - reflexivity.
  - vm_compute. reflexivity.
  - cbn; lia.
  - cbn; lia.
  - left. cbn; lia.
  - exact photo_run_returns.
Defined.

(** * Further properties of the handler *)

(** ** One iteration of the generator, in full *)

Section GeneratorDetail.

Variable env : Env.

(** The outcome of an iteration is decided by the encoder, by the
    destination bucket being configured and by S3 accepting the write. *)
Lemma process_variant_cases image key osz acc name box st im :
  heap st !! image = Some im ->
  exists out st' im' resized now,
    process_variant env image key osz acc (name, box) st = (out, st')
    /\ outbox st' = outbox st
    /\ heap st' !! image = Some im'
    /\ im_mode im' = im_mode im
    /\ im_size im' = (if has_transparency (im_mode im) then im_size im
                      else resized_size env box (im_size im))
    /\ im_size resized = resized_size env box (im_size im)
    /\ match jpeg_save env 85 true resized with
       | None =>
           (exists msg, out = Raise (OSError msg))
           /\ calls st' = calls st /\ s3 st' = s3 st
       | Some buffer =>
           let o := variant_object buffer osz (im_size resized) name now in
           calls st' = calls st
                       ++ [PutObject (PROCESSED_BUCKET env) (dest_key name key) o]
           /\ match PROCESSED_BUCKET env with
              | None => out = Raise ParamValidationError /\ s3 st' = s3 st
              | Some b =>
                  if s3_writable env b (dest_key name key)
                  then out = Return
                               (dict_set name
                                  {| info_size := im_size resized;
                                     info_key := dest_key name key |} acc)
                       /\ s3 st' = <[(b, dest_key name key) := o]> (s3 st)
                  else out = Raise (ClientError "AccessDenied")
                       /\ s3 st' = s3 st
              end
       end.
Proof.
  intros Himage. unfold process_variant; cbn [fst snd].
  destruct (resize_image_run env image box st im Himage)
    as (ref & st1 & resized & im' & Hrun & (Hs3 & Hcalls & Hout) & _
        & Href & Hsize & Him' & Hmode & Hsz).
  rewrite (bind_run_return _ _ _ _ _ Hrun).
  unfold Image_save. unfold bind at 1. unfold bind at 1. unfold deref at 1.
  rewrite Href; cbn [default from_option id].
  destruct (jpeg_save env 85 true resized) as [buffer|] eqn:Hsave.
  - unfold ret at 1. unfold bind at 1. unfold deref at 1.
    rewrite Href; cbn [default from_option id].
    unfold bind at 1. unfold utcnow_isoformat at 1.
    unfold bind at 1. unfold put_object at 1.
    fold (dest_key name key).
    fold (variant_object buffer osz (im_size resized) name (isoformat env (clock st1))).
    destruct (PROCESSED_BUCKET env) as [b|] eqn:Hb.
    + destruct (s3_writable env b (dest_key name key)) eqn:Hw;
        eexists _, _, im', resized, (isoformat env (clock st1));
        (split; [reflexivity|]); rewrite Hsave; cbn;
        rewrite ?Hs3, ?Hcalls; auto 10.
    + eexists _, _, im', resized, (isoformat env (clock st1)).
      split; [reflexivity|]. rewrite Hsave; cbn.
      rewrite ?Hs3, ?Hcalls; auto 10.
  - unfold raise. eexists _, _, im', resized, EmptyString.
    split; [reflexivity|]. rewrite Hsave. eauto 12.
Qed.

End GeneratorDetail.

(** ** Writes and the keys they touch *)

Lemma append_assoc (a b c : string) : (a +:+ b) +:+ c = a +:+ (b +:+ c).
Proof.
  induction a as [|x a IH]; [reflexivity|].
  change (String x ((a +:+ b) +:+ c) = String x (a +:+ (b +:+ c))).
  rewrite IH. reflexivity.
Qed.

Lemma dest_key_prefix (name key : string) :
  String.prefix "processed/" (dest_key name key) = true.
Proof. unfold dest_key. apply prefix_append. Qed.

Lemma dest_key_contains (name key : string) :
  contains "processed/" (dest_key name key) = true.
Proof. apply contains_prefix, dest_key_prefix. Qed.

(** [needle in s] holds exactly when [s] can be cut around [needle]. *)
Lemma contains_cut (needle s : string) :
  contains needle s = true ->
  exists before after, s = before +:+ needle +:+ after.
Proof.
  assert (forall n t, String.prefix n t = true -> exists after, t = n +:+ after)
    as Hprefix.
  { induction n as [|a n IH]; intros t Ht.
    - exists t. reflexivity.
    - destruct t as [|b t]; [discriminate|]. cbn [String.prefix] in Ht.
      destruct (Ascii.ascii_dec a b) as [->|]; [|discriminate].
      destruct (IH t Ht) as [after ->]. exists after. reflexivity. }
  induction s as [|a s IH]; cbn [contains]; intros H.
  - rewrite orb_false_r in H. destruct (Hprefix _ _ H) as [after E].
    exists EmptyString, after. exact E.
  - apply orb_true_iff in H as [H|H].
    + destruct (Hprefix _ _ H) as [after E]. exists EmptyString, after. exact E.
    + destruct (IH H) as (before & after & ->).
      exists (String a before), after. reflexivity.
Qed.

Lemma uploads_kept_refl st : uploads_kept st st.
Proof. intros b k _. reflexivity. Qed.

Lemma uploads_kept_trans s1 s2 s3 :
  uploads_kept s1 s2 -> uploads_kept s2 s3 -> uploads_kept s1 s3.
Proof. intros H1 H2 b k Hk. rewrite (H2 b k Hk). apply H1, Hk. Qed.

Lemma uploads_kept_same s1 s2 : s3 s2 = s3 s1 -> uploads_kept s1 s2.
Proof. intros E b k _. rewrite E. reflexivity. Qed.

Lemma variant_put_processed (env : Env) key name c :
  variant_put env key name c -> writes_processed_key c.
Proof.
  intros [o ->]. exists (PROCESSED_BUCKET env), (dest_key name key), o.
  split; [reflexivity | apply dest_key_contains].
Qed.

Lemma apply_put_keeps_upload (env : Env) key name c m bucket k :
  variant_put env key name c ->
  String.prefix "processed/" k = false ->
  apply_put m c !! (bucket, k) = m !! (bucket, k).
Proof.
  intros [o ->] Hk. cbn [apply_put].
  destruct (PROCESSED_BUCKET env) as [b|]; [|reflexivity].
  apply lookup_insert_ne. intros [= _ E].
  rewrite <- E, dest_key_prefix in Hk. discriminate.
Qed.

Section GeneratorTrace.

Variable env : Env.

(** The loop, whatever its outcome: the writes sent follow the table; those
    S3 accepted are a prefix of them and are what changed the store, at
    most the last one sent being refused. *)
Lemma variants_loop_trace image key osz table :
  forall acc st im,
    heap st !! image = Some im ->
    exists new applied done,
      calls (snd (for_fold (process_variant env image key osz) table acc st))
      = calls st ++ new
      /\ outbox (snd (for_fold (process_variant env image key osz) table acc st))
         = outbox st
      /\ Forall2 (fun c e => variant_put env key (fst e) c) new done
      /\ done `prefix_of` table
      /\ applied `prefix_of` new
      /\ (length new <= S (length applied))%nat
      /\ s3 (snd (for_fold (process_variant env image key osz) table acc st))
         = fold_left apply_put applied (s3 st)
      /\ uploads_kept st
           (snd (for_fold (process_variant env image key osz) table acc st)).
Proof.
  induction table as [|[name box] rest IH]; intros acc st im Himage.
  - exists [], [], []. cbn. rewrite app_nil_r.
    repeat split; auto using uploads_kept_refl, prefix_nil.
  - cbn [for_fold].
    destruct (process_variant_run env image key osz acc name box st im Himage)
      as (out1 & st1 & im1 & Hrun & Hout1 & Him1 & _ & _ & _ & Hcase).
    destruct Hcase as [(Hcalls & Hs3 & e & ->)
                      |(c & Hc & Hcalls & [(Hs3 & e & ->)|(Hs3 & ->)])].
    + rewrite (bind_run_raise _ _ _ _ _ Hrun). cbn [snd].
      exists [], [], []. rewrite app_nil_r.
      repeat split; auto using uploads_kept_same, prefix_nil.
    + rewrite (bind_run_raise _ _ _ _ _ Hrun). cbn [snd].
      exists [c], [], [(name, box)].
      split; [assumption|]. split; [assumption|].
      split; [repeat constructor; assumption|].
      split; [apply prefix_cons, prefix_nil|].
      split; [apply prefix_nil|]. split; [cbn [length]; lia|].
      split; [assumption | apply uploads_kept_same; assumption].
    + rewrite (bind_run_return _ _ _ _ _ Hrun).
      destruct (IH (dict_set name
                      {| info_size := resized_size env box (im_size im);
                         info_key := dest_key name key |} acc) st1 im1 Him1)
        as (new & applied & done & Hcalls' & Hout' & Hnew & Hdone & Happ
            & Hlen & Hs3' & Hkept).
      exists (c :: new), (c :: applied), ((name, box) :: done).
      split; [rewrite Hcalls', Hcalls, <- app_assoc; reflexivity|].
      split; [congruence|].
      split; [constructor; assumption|].
      split; [apply prefix_cons; assumption|].
      split; [apply prefix_cons; assumption|].
      split; [cbn [length]; lia|].
      split; [cbn [fold_left]; rewrite Hs3', Hs3; reflexivity|].
      apply uploads_kept_trans with st1; [|exact Hkept].
      intros b k Hk. rewrite Hs3. apply (apply_put_keeps_upload env key name); assumption.
Qed.

(** The same for [process_image], on any bytes. *)
Lemma process_image_trace content key st :
  exists new applied done,
    calls (snd (process_image env content key st)) = calls st ++ new
    /\ outbox (snd (process_image env content key st)) = outbox st
    /\ Forall2 (fun c e => variant_put env key (fst e) c) new done
    /\ done `prefix_of` SIZES
    /\ applied `prefix_of` new
    /\ (length new <= S (length applied))%nat
    /\ s3 (snd (process_image env content key st))
       = fold_left apply_put applied (s3 st)
    /\ uploads_kept st (snd (process_image env content key st)).
Proof.
  destruct (image_open env content) as [im|] eqn:Hopen.
  - rewrite (process_image_unfold env content key st im Hopen).
    set (st2 := add_log _ _).
    assert (heap st2 !! length (heap st) = Some im) as Himage
      by (apply list_lookup_middle; reflexivity).
    destruct (variants_loop_trace (length (heap st)) key (im_size im) SIZES [] st2 im
                Himage)
      as (new & applied & done & Hcalls & Hout & Hnew & Hdone & Happ & Hlen
          & Hs3 & Hkept).
    exists new, applied, done.
    destruct (for_fold _ _ _ _) as [[res|e] st']; cbn [snd] in *;
      cbn [calls outbox s3 add_log]; repeat split; try assumption;
      intros b k Hk; apply (Hkept b k Hk).
  - destruct (process_image_undecodable env content key st Hopen)
      as (st' & -> & Hs3 & Hcalls & Hout). cbn [snd].
    exists [], [], []. rewrite app_nil_r.
    repeat split; auto using uploads_kept_same, prefix_nil.
Qed.

End GeneratorTrace.

(** ** One record, whatever its outcome *)

Lemma variant_puts_not_publish (env : Env) key puts
  (done : list (string * (Z * Z))) :
  Forall2 (fun c e => variant_put env key (fst e) c) puts done ->
  Forall (fun c => is_publish c = false) puts
  /\ Forall writes_processed_key puts.
Proof.
  induction 1 as [|c e puts done Hc _ [IH1 IH2]]; [split; constructor|].
  split; constructor; try assumption.
  - destruct Hc as [o ->]. reflexivity.
  - apply (variant_put_processed env key (fst e)), Hc.
Qed.

(** The requests of one iteration of the handler's loop: none for a key
    with [processed/], otherwise the fetch first; an iteration that raises
    has published nothing; objects outside [processed/] are left alone. *)
Lemma handle_record_trace (env : Env) record st :
  exists new,
    calls (snd (handle_record env record st)) = calls st ++ new
    /\ uploads_kept st (snd (handle_record env record st))
    /\ (contains "processed/" (object_key record) = true -> new = [])
    /\ (contains "processed/" (object_key record) = false ->
        exists rest,
          new = GetObject (bucket_name record) (object_key record) :: rest)
    /\ (forall e, fst (handle_record env record st) = Raise e ->
        Forall (fun c => is_publish c = false) new
        /\ outbox (snd (handle_record env record st)) = outbox st).
Proof.
  destruct (contains "processed/" (object_key record)) eqn:Hskip.
  - destruct (handle_record_skips env record st Hskip)
      as (st' & -> & (Hs3 & Hcalls & Hout) & _). cbn [fst snd].
    exists []. rewrite app_nil_r.
    split; [assumption|]. split; [apply uploads_kept_same; assumption|].
    split; [reflexivity|]. split; [discriminate|]. discriminate.
  - destruct (readable env st (bucket_name record) (object_key record))
      as [o|] eqn:Hread.
    + rewrite (handle_record_fetched env record st o Hskip Hread).
      set (st0 := add_call _ _).
      destruct (process_image_trace env (obj_body o) (object_key record) st0)
        as (puts & applied & done & Hcalls & Hout & Hputs & _ & _ & _ & _ & Hkept).
      apply variant_puts_not_publish in Hputs as [Hnp _].
      destruct (process_image env (obj_body o) (object_key record) st0)
        as [[results|e] st1] eqn:Hrun; cbn [snd] in *.
      * rewrite (bind_run_return _ _ _ _ _ Hrun).
        destruct (send_notification_run env (object_key record) results st1)
          as (st2 & message & Hsend & Hcalls2 & Hs32 & _).
        rewrite (bind_run_return _ _ _ _ _ Hsend). unfold logger_info; cbn [fst snd].
        eexists (GetObject _ _ :: puts ++ [_]).
        split; [cbn [calls add_log]; rewrite Hcalls2, Hcalls; unfold st0;
                cbn [calls add_call add_log]; rewrite <- !app_assoc; reflexivity|].
        split; [|split; [discriminate|split; [eauto|discriminate]]].
        intros b k Hk. cbn [s3 add_log]. rewrite Hs32. apply (Hkept b k Hk).
      * rewrite (bind_run_raise _ _ _ _ _ Hrun). cbn [fst snd].
        exists (GetObject (bucket_name record) (object_key record) :: puts).
        split; [rewrite Hcalls; unfold st0; cbn [calls add_call add_log];
                rewrite <- app_assoc; reflexivity|].
        split; [exact Hkept|]. split; [discriminate|]. split; [eauto|].
        intros _ _. split; [constructor; [reflexivity | assumption] | exact Hout].
    + destruct (handle_record_fetch_fails env record st Hskip Hread)
        as (st' & -> & Hcalls & Hs3 & Hout). cbn [fst snd].
      exists [GetObject (bucket_name record) (object_key record)].
      split; [assumption|]. split; [apply uploads_kept_same; assumption|].
      split; [discriminate|]. split; [eauto|].
      intros _ _. split; [repeat constructor | assumption].
Qed.

(** ** Events *)

Section Events.

Variable env : Env.

Lemma lambda_handler_returned event st response st1 :
  lambda_handler env event st = (Return response, st1) ->
  for_each (handle_record env) event st = (Return tt, st1).
Proof.
  unfold lambda_handler, try_except.
  destruct (bind _ _ st) as [[r|e] st'] eqn:Hrun.
  - intros [= _ <-]. apply bind_return in Hrun as ([] & st2 & Hloop & Hret).
    unfold ret in Hret. injection Hret as _ <-. exact Hloop.
  - unfold bind, logger_error, raise. discriminate.
Qed.

Lemma lambda_handler_raised event st e st1 :
  lambda_handler env event st = (Raise e, st1) ->
  exists st0,
    for_each (handle_record env) event st = (Raise e, st0)
    /\ st1 = add_log (ERROR, "Error processing image: " +:+ str_exn e) st0.
Proof.
  unfold lambda_handler, try_except. unfold bind at 1.
  destruct (for_each (handle_record env) event st) as [[[]|e'] st'] eqn:Hloop.
  - unfold ret. discriminate.
  - unfold bind, logger_error, raise. intros [= <- <-]. eauto.
Qed.

End Events.

(** X1. An event whose records all carry a key with [processed/] in it, the
    empty event included, gets the success response with no request issued
    and no store changed. *)
Theorem event_of_processed_keys_changes_nothing (env : Env) event st :
  Forall (fun r => contains "processed/" (object_key r) = true) event ->
  exists st',
    lambda_handler env event st = (Return success_response, st')
    /\ s3 st' = s3 st /\ calls st' = calls st /\ outbox st' = outbox st.
Proof.
  intros Hall.
  assert (exists st', for_each (handle_record env) event st = (Return tt, st')
                      /\ quiet st st') as (st' & Hrun & Hq).
  { revert st. induction Hall as [|r rs Hr _ IH]; intros st.
    - exists st. split; [reflexivity | apply quiet_refl].
    - destruct (handle_record_skips env r st Hr) as (st1 & Hrun & Hq & _).
      destruct (IH st1) as (st2 & Hrest & Hq').
      exists st2. cbn [for_each]. rewrite (bind_run_return _ _ _ _ _ Hrun).
      split; [exact Hrest | exact (quiet_trans _ _ _ Hq Hq')]. }
  exists st'. split; [apply lambda_handler_returns, Hrun | exact Hq].
Qed.

(** X2. Skipping is [continue], not [return]: an event that starts with a
    skipped record is handled as the rest of the event, from a state that
    differs only by the two log lines of the skipped record. *)
Theorem skipped_record_does_not_stop_the_loop (env : Env) record rest st :
  contains "processed/" (object_key record) = true ->
  lambda_handler env (record :: rest) st
  = lambda_handler env rest
      (add_log (INFO, "Skipping already processed image")
         (add_log (INFO, "Processing image: " +:+ object_key record
                         +:+ " from bucket: " +:+ bucket_name record) st)).
Proof.
  intros Hskip. unfold lambda_handler, try_except. cbn [for_each].
  unfold bind at 2. unfold bind at 2. unfold handle_record at 1.
  rewrite Hskip. unfold bind at 2. unfold logger_info at 1 2.
  reflexivity.
Qed.

(** X3. Records are handled one after the other on one state: when the
    handler returns for the first part of an event, the whole event is
    handled as its second part from the state the first part left. *)
Theorem returned_prefix_then_rest (env : Env) pre post st response st1 :
  lambda_handler env pre st = (Return response, st1) ->
  lambda_handler env (pre ++ post) st = lambda_handler env post st1.
Proof.
  intros Hpre. apply lambda_handler_returned in Hpre.
  unfold lambda_handler, try_except. unfold bind at 1 3.
  rewrite for_each_app, (bind_run_return _ _ _ _ _ Hpre). reflexivity.
Qed.

(** X4. The first record that raises ends the invocation, whatever the
    error: records after it change neither the outcome nor the state. *)
Theorem raised_prefix_ends_invocation (env : Env) pre post st e st1 :
  lambda_handler env pre st = (Raise e, st1) ->
  lambda_handler env (pre ++ post) st = (Raise e, st1).
Proof.
  intros Hpre. apply lambda_handler_raised in Hpre as (st0 & Hloop & ->).
  unfold lambda_handler, try_except. unfold bind at 1.
  rewrite for_each_app, (bind_run_raise _ _ _ _ _ Hloop). reflexivity.
Qed.

(** X5. An iteration of the handler's loop issues no request exactly when
    the key has [processed/] somewhere in it; for any other key the fetch
    of the record's object is issued, as the first request of the
    iteration. *)
Theorem no_request_iff_processed_substring (env : Env) record st :
  (calls (snd (handle_record env record st)) = calls st
   <-> exists before after,
         object_key record = before +:+ "processed/" +:+ after)
  /\ ((~ exists before after,
           object_key record = before +:+ "processed/" +:+ after) ->
      exists rest,
        calls (snd (handle_record env record st))
        = calls st
            ++ GetObject (bucket_name record) (object_key record) :: rest).
Proof.
  destruct (handle_record_trace env record st)
    as (new & Hcalls & _ & Hskip & Hfetch & _).
  split; [split|].
  - intros Hsame.
    destruct (contains "processed/" (object_key record)) eqn:Hc;
      [apply contains_cut, Hc|].
    destruct (Hfetch eq_refl) as [rest ->].
    rewrite Hsame in Hcalls. rewrite <- (app_nil_r (calls st)) in Hcalls at 1.
    apply app_inv_head in Hcalls. discriminate.
  - intros (before & after & Hkey).
    rewrite Hcalls, Hskip, app_nil_r; [reflexivity|].
    rewrite Hkey. apply contains_append.
  - intros Hnone.
    destruct (contains "processed/" (object_key record)) eqn:Hc;
      [destruct Hnone; apply contains_cut, Hc|].
    destruct (Hfetch eq_refl) as [rest ->].
    exists rest. exact Hcalls.
Qed.

(** X6. What the generator writes is never taken for an upload: every
    request [process_image] issues, on any bytes and whatever its outcome,
    is a write, and a record carrying the key of such a write is skipped by
    the handler's loop with no request and no store change. *)
Theorem generator_output_is_skipped (env : Env) content key st :
  exists new,
    calls (snd (process_image env content key st)) = calls st ++ new
    /\ forall c, c ∈ new ->
         exists bucket key' o,
           c = PutObject bucket key' o
           /\ forall b st0, exists st1,
                handle_record env {| bucket_name := b; object_key := key' |} st0
                = (Return tt, st1)
                /\ s3 st1 = s3 st0 /\ calls st1 = calls st0
                /\ outbox st1 = outbox st0.
Proof.
  destruct (process_image_trace env content key st)
    as (new & applied & done & Hcalls & _ & Hnew & _).
  exists new. split; [exact Hcalls|].
  apply variant_puts_not_publish in Hnew as [_ Hproc].
  intros c Hc. rewrite Forall_forall in Hproc.
  destruct (Hproc c Hc) as (bucket & key' & o & -> & Hcontains).
  exists bucket, key', o. split; [reflexivity|]. intros b st0.
  destruct (handle_record_skips env {| bucket_name := b; object_key := key' |}
              st0 Hcontains) as (st1 & Hrun & Hq & _).
  exists st1. split; [exact Hrun | exact Hq].
Qed.

(** X7. Whatever the event and the outcome, an invocation leaves every
    object whose key does not start with [processed/] as it was: uploads
    are read, never written. *)
Theorem uploads_are_never_overwritten (env : Env) event st bucket key :
  String.prefix "processed/" key = false ->
  s3 (snd (lambda_handler env event st)) !! (bucket, key) = s3 st !! (bucket, key).
Proof.
  intros Hkey.
  assert (forall st, uploads_kept st (snd (for_each (handle_record env) event st)))
    as Hloop.
  { induction event as [|r rs IH]; intros st0; cbn [for_each].
    - apply uploads_kept_refl.
    - destruct (handle_record_trace env r st0) as (new & _ & Hkept & _).
      unfold bind. destruct (handle_record env r st0) as [[[]|e] st1]; cbn [snd] in *.
      + apply uploads_kept_trans with st1; [exact Hkept | apply IH].
      + exact Hkept. }
  specialize (Hloop st bucket key Hkey).
  unfold lambda_handler, try_except, bind at 1.
  destruct (for_each (handle_record env) event st) as [[[]|e] st1];
    cbn [snd] in *; exact Hloop.
Qed.

(** X8. A record that raises has published nothing: its requests hold no
    publish, the outbox is as it was, and an invocation on that record
    raises the same error. *)
Theorem failed_record_publishes_nothing (env : Env) record st e st' :
  handle_record env record st = (Raise e, st') ->
  (exists new,
     calls st' = calls st ++ new
     /\ Forall (fun c => is_publish c = false) new)
  /\ outbox st' = outbox st
  /\ fst (lambda_handler env [record] st) = Raise e.
Proof.
  intros Hrun.
  destruct (handle_record_trace env record st) as (new & Hcalls & _ & _ & _ & Hraise).
  rewrite Hrun in Hcalls, Hraise. cbn [fst snd] in *.
  destruct (Hraise e eq_refl) as [Hnp Hout].
  split; [eauto|]. split; [exact Hout|].
  pose proof (lambda_handler_raises env [] record [] st st e st' eq_refl Hrun)
    as Hhandler.
  cbn [app] in Hhandler. rewrite Hhandler. reflexivity.
Qed.

(** ** The generator's writes *)

(** An iteration that returns: the destination is configured, the write was
    accepted, and the object written carries the sizes and the name. *)
Lemma process_variant_returned (env : Env) image key osz acc name box st im acc' st' :
  heap st !! image = Some im ->
  process_variant env image key osz acc (name, box) st = (Return acc', st') ->
  exists im' buffer now b,
    heap st' !! image = Some im'
    /\ PROCESSED_BUCKET env = Some b
    /\ acc' = dict_set name
                {| info_size := resized_size env box (im_size im);
                   info_key := dest_key name key |} acc
    /\ s3 st' = <[(b, dest_key name key) :=
                    variant_object buffer osz
                      (resized_size env box (im_size im)) name now]> (s3 st).
Proof.
  intros Himage Hrun.
  destruct (process_variant_cases env image key osz acc name box st im Himage)
    as (out & st1 & im' & resized & now & Hrun' & _ & Him' & _ & _ & Hsize & Hcase).
  rewrite Hrun in Hrun'. injection Hrun' as <- <-.
  destruct (jpeg_save env 85 true resized) as [buffer|].
  - cbv zeta in Hcase. destruct Hcase as [_ Hcase].
    destruct (PROCESSED_BUCKET env) as [b|]; [|destruct Hcase; discriminate].
    destruct (s3_writable env b (dest_key name key));
      [|destruct Hcase; discriminate].
    destruct Hcase as [[= ->] Hs3]. rewrite Hsize in Hs3.
    exists im', buffer, now, b. rewrite Hsize. auto.
  - destruct Hcase as [[msg Hout] _]. discriminate.
Qed.

Lemma dest_keys_distinct (key : string) :
  dest_key "thumbnail" key <> dest_key "mobile" key
  /\ dest_key "thumbnail" key <> dest_key "web" key
  /\ dest_key "mobile" key <> dest_key "web" key.
Proof.
  unfold dest_key.
  repeat apply conj; intros H; apply String.app_inj in H;
    vm_compute in H; discriminate.
Qed.

(** X9. The store after [process_image], on any bytes and whatever the
    outcome, is the store before with the accepted writes applied in the
    order sent: nothing is undone when a later variant fails, the accepted
    writes are all the writes sent but possibly the last, and nothing is
    published. *)
Theorem accepted_writes_survive_failure (env : Env) content key st :
  exists new applied,
    calls (snd (process_image env content key st)) = calls st ++ new
    /\ Forall (fun c => is_put c = true) new
    /\ applied `prefix_of` new
    /\ (length new <= S (length applied))%nat
    /\ s3 (snd (process_image env content key st))
       = fold_left apply_put applied (s3 st)
    /\ outbox (snd (process_image env content key st)) = outbox st.
Proof.
  destruct (process_image_trace env content key st)
    as (new & applied & done & Hcalls & Hout & Hnew & _ & Happ & Hlen & Hs3 & _).
  exists new, applied. repeat (split; [try assumption|]); [|assumption].
  clear -Hnew. induction Hnew as [|c e new done [o ->] _ IH]; constructor;
    [reflexivity | exact IH].
Qed.

(** X10. With [PROCESSED_BUCKET] unset, a decodable image and a working
    encoder, [process_image] raises at the first write: one request, for
    the thumbnail key and with no bucket, and the store is unchanged. *)
Theorem missing_destination_bucket (env : Env) content key st im :
  PROCESSED_BUCKET env = None ->
  image_open env content = Some im ->
  (forall i, jpeg_save env 85 true i <> None) ->
  exists st' o,
    process_image env content key st = (Raise ParamValidationError, st')
    /\ calls st' = calls st ++ [PutObject None (dest_key "thumbnail" key) o]
    /\ s3 st' = s3 st
    /\ outbox st' = outbox st.
Proof.
  intros Hbucket Hopen Hsave.
  rewrite (process_image_unfold env content key st im Hopen).
  set (st2 := add_log _ _).
  assert (heap st2 !! length (heap st) = Some im) as Himage
    by (apply list_lookup_middle; reflexivity).
  unfold SIZES; cbn [for_fold].
  destruct (process_variant_cases env (length (heap st)) key (im_size im) []
              "thumbnail" (150, 150) st2 im Himage)
    as (out & st1 & im' & resized & now & Hrun & Hout & _ & _ & _ & _ & Hcase).
  destruct (jpeg_save env 85 true resized) as [buffer|] eqn:Hb;
    [|destruct (Hsave resized Hb)].
  cbv zeta in Hcase. rewrite Hbucket in Hcase.
  destruct Hcase as (Hcalls & -> & Hs3).
  rewrite (bind_run_raise _ _ _ _ _ Hrun).
  eexists _, _. split; [reflexivity|].
  cbn [calls s3 outbox add_log].
  split; [exact Hcalls|]. split; assumption.
Qed.

(** X11. When the encoder refuses every image, [process_image] on a
    decodable image raises the encoder's error before any request is
    issued. *)
Theorem encoder_refusal_sends_nothing (env : Env) content key st im :
  image_open env content = Some im ->
  (forall i, jpeg_save env 85 true i = None) ->
  exists st' msg,
    process_image env content key st = (Raise (OSError msg), st')
    /\ calls st' = calls st /\ s3 st' = s3 st /\ outbox st' = outbox st.
Proof.
  intros Hopen Hsave.
  rewrite (process_image_unfold env content key st im Hopen).
  set (st2 := add_log _ _).
  assert (heap st2 !! length (heap st) = Some im) as Himage
    by (apply list_lookup_middle; reflexivity).
  unfold SIZES; cbn [for_fold].
  destruct (process_variant_cases env (length (heap st)) key (im_size im) []
              "thumbnail" (150, 150) st2 im Himage)
    as (out & st1 & im' & resized & now & Hrun & Hout & _ & _ & _ & _ & Hcase).
  rewrite (Hsave resized) in Hcase. destruct Hcase as ([msg ->] & Hcalls & Hs3).
  rewrite (bind_run_raise _ _ _ _ _ Hrun).
  eexists _, msg. split; [reflexivity|].
  cbn [calls s3 outbox add_log]. auto.
Qed.

(** X12. After a run of [process_image] that returns, the object of every
    variant is in the destination bucket under [processed/<name>/<key>],
    typed [image/jpeg] and tagged with the size of the source as decoded,
    the size recorded for the variant, and the variant's name. *)
Theorem written_objects (env : Env) content key st results st' im :
  image_open env content = Some im ->
  process_image env content key st = (Return results, st') ->
  forall name box, (name, box) ∈ SIZES ->
    exists b buffer now info,
      PROCESSED_BUCKET env = Some b
      /\ dict_get name results = Some info
      /\ s3 st' !! (b, dest_key name key)
         = Some (variant_object buffer (im_size im) (info_size info) name now).
Proof.
  intros Hopen Hrun name box Hin.
  rewrite (process_image_unfold env content key st im Hopen) in Hrun.
  set (st2 := add_log _ _) in Hrun.
  assert (heap st2 !! length (heap st) = Some im) as Himage
    by (apply list_lookup_middle; reflexivity).
  destruct (for_fold _ _ _ _) as [[res|e] st3] eqn:Hloop; [|discriminate].
  injection Hrun as -> ->.
  unfold SIZES in Hloop; cbn [for_fold] in Hloop.
  apply bind_return in Hloop as (acc1 & s1 & H1 & Hloop).
  apply bind_return in Hloop as (acc2 & s2 & H2 & Hloop).
  apply bind_return in Hloop as (acc3 & s3' & H3 & Hloop).
  unfold ret in Hloop. injection Hloop as <- <-.
  destruct (process_variant_returned env _ _ _ _ _ _ _ _ _ _ Himage H1)
    as (im1 & buf1 & now1 & b & Him1 & Hb & -> & Hs1).
  destruct (process_variant_returned env _ _ _ _ _ _ _ _ _ _ Him1 H2)
    as (im2 & buf2 & now2 & b2 & Him2 & Hb2 & -> & Hs2).
  destruct (process_variant_returned env _ _ _ _ _ _ _ _ _ _ Him2 H3)
    as (im3 & buf3 & now3 & b3 & _ & Hb3 & -> & Hs3).
  rewrite Hb in Hb2, Hb3. injection Hb2 as <-. injection Hb3 as <-.
  destruct (dest_keys_distinct key) as (D12 & D13 & D23).
  unfold SIZES in Hin. rewrite !elem_of_cons, elem_of_nil in Hin.
  destruct Hin as [[= -> ->]|[[= -> ->]|[[= -> ->]|[]]]].
  - exists b, buf1, now1. eexists. split; [exact Hb|].
    split; [reflexivity|]. cbn [info_size].
    rewrite Hs3, Hs2, Hs1.
    rewrite lookup_insert_ne by congruence.
    rewrite lookup_insert_ne by congruence.
    apply lookup_insert_eq.
  - exists b, buf2, now2. eexists. split; [exact Hb|].
    split; [reflexivity|]. cbn [info_size].
    rewrite Hs3, Hs2.
    rewrite lookup_insert_ne by congruence.
    apply lookup_insert_eq.
  - exists b, buf3, now3. eexists. split; [exact Hb|].
    split; [reflexivity|]. cbn [info_size].
    rewrite Hs3. apply lookup_insert_eq.
Qed.

(** ** [resize_image] on any box *)

(** X13. For an image and a box of positive sides, [resize_image] returns
    an image of positive sides that fits the box, is no larger than the
    source on either side, has the source's aspect ratio up to the rounding
    of one side, and has the source's size when the box holds the source;
    it issues no request. *)
Theorem resize_image_shrinks_to_fit (env : Env) image box st im :
  heap st !! image = Some im ->
  0 < fst box -> 0 < snd box ->
  0 < fst (im_size im) -> 0 < snd (im_size im) ->
  exists ref st' resized,
    resize_image env image box st = (Return ref, st')
    /\ heap st' !! ref = Some resized
    /\ 0 < fst (im_size resized) /\ 0 < snd (im_size resized)
    /\ fits box (im_size resized)
    /\ fits (im_size im) (im_size resized)
    /\ aspect_within_rounding (im_size im) (im_size resized)
    /\ (fits box (im_size im) -> im_size resized = im_size im)
    /\ s3 st' = s3 st /\ calls st' = calls st /\ outbox st' = outbox st.
Proof.
  intros Himage Hx Hy Hw Hh.
  destruct (resize_image_run env image box st im Himage)
    as (ref & st' & resized & im' & Hrun & Hq & _ & Href & Hsize & _).
  destruct (resized_size_fits env box (im_size im) Hx Hy Hw Hh)
    as (P1 & P2 & F1 & F2 & A).
  exists ref, st', resized. rewrite Hsize.
  split; [exact Hrun|]. split; [exact Href|].
  repeat (split; [assumption|]).
  split; [apply resized_size_noop | exact Hq].
Qed.

(** X14. [resize_image] flattens exactly the modes RGBA, LA and P: for
    those it returns a new object of mode RGB and leaves the caller's
    object as it was; for any other mode it returns the caller's own
    object, resized in place, in the mode it had. *)
Theorem resize_image_flattens_transparency (env : Env) image box st im :
  heap st !! image = Some im ->
  exists ref st' resized,
    resize_image env image box st = (Return ref, st')
    /\ heap st' !! ref = Some resized
    /\ if bool_decide (im_mode im ∈ ["RGBA"; "LA"; "P"])
       then ref = length (heap st)
            /\ im_mode resized = "RGB"
            /\ heap st' !! image = Some im
       else ref = image
            /\ im_mode resized = im_mode im
            /\ length (heap st') = length (heap st).
Proof.
  intros Himage. unfold resize_image.
  unfold bind at 1. unfold deref at 1. rewrite Himage; cbn [default from_option id].
  assert (image < length (heap st))%nat as Hlt
    by (apply lookup_lt_Some in Himage; exact Himage).
  unfold has_transparency.
  destruct (bool_decide (im_mode im ∈ ["RGBA"; "LA"; "P"])).
  - set (canvas := {| im_format := None; im_mode := "RGB";
                      im_size := im_size im; im_data := _ |}).
    unfold bind at 1. unfold new_image at 1.
    set (st1 := set_heap _ st).
    assert (heap st1 !! length (heap st) = Some canvas) as Hnew
      by (apply list_lookup_middle; reflexivity).
    destruct (thumbnail_run env (length (heap st)) box st1 canvas Hnew)
      as (st' & Hrun & _ & _ & Hh).
    rewrite (bind_run_return _ _ _ _ _ Hrun). unfold ret.
    exists (length (heap st)), st', (thumbnail_image env box canvas).
    split; [reflexivity|]. rewrite Hh. unfold st1; cbn [heap set_heap].
    split; [apply list_lookup_insert_eq; rewrite length_app; cbn; lia|].
    split; [reflexivity|]. split; [apply thumbnail_image_mode|].
    rewrite list_lookup_insert_ne by lia.
    rewrite lookup_app_l by lia. exact Himage.
  - unfold bind at 1. unfold ret at 1.
    destruct (thumbnail_run env image box st im Himage)
      as (st' & Hrun & _ & _ & Hh).
    rewrite (bind_run_return _ _ _ _ _ Hrun). unfold ret.
    exists image, st', (thumbnail_image env box im).
    split; [reflexivity|]. rewrite Hh.
    split; [apply list_lookup_insert_eq; lia|].
    split; [reflexivity|]. split; [apply thumbnail_image_mode|].
    apply length_insert.
Qed.

(** ** The notification *)

Lemma append_nil_r (s : string) : s +:+ EmptyString = s.
Proof.
  induction s as [|a s IH]; [reflexivity|].
  change (String a (s +:+ EmptyString) = String a s). rewrite IH. reflexivity.
Qed.

Lemma message_lines (results : list (string * VariantInfo)) (start : string) :
  fold_left (fun msg entry => msg +:+ variant_line entry) results start
  = start +:+ fold_right String.append EmptyString (map variant_line results).
Proof.
  revert start.
  induction results as [|r rs IH]; intros start; cbn [fold_left map fold_right].
  - symmetry. apply append_nil_r.
  - rewrite IH. apply append_assoc.
Qed.

(** X15. [send_notification] sends one publish request, to the configured
    topic, with the subject [Image Processed: <key>] and a message made of
    the heading, one line per entry of the result mapping in its order and
    the time; it returns whatever SNS answers, logging one line, at level
    INFO when the notification was taken and at level ERROR otherwise. *)
Theorem notification_message (env : Env) key results st :
  exists st' entry,
    send_notification env key results st = (Return tt, st')
    /\ calls st' = calls st
         ++ [Publish (SNS_TOPIC_ARN env) ("Image Processed: " +:+ key)
               (notification_text key results (isoformat env (clock st)))]
    /\ logs st' = logs st ++ [entry]
    /\ fst entry
       = (if delivered env ("Image Processed: " +:+ key)
               (notification_text key results (isoformat env (clock st)))
          then INFO else ERROR)
    /\ length (outbox st')
       = (length (outbox st)
          + if delivered env ("Image Processed: " +:+ key)
                 (notification_text key results (isoformat env (clock st)))
            then 1 else 0)%nat.
Proof.
  unfold send_notification, try_except.
  unfold bind at 1. unfold utcnow_isoformat at 1.
  assert (fold_left (fun msg entry => msg +:+ variant_line entry) results
            (nl +:+ "Image Processing Complete!" +:+ nl +:+ nl
             +:+ "Original Image: " +:+ key +:+ nl
             +:+ "Processed Variants:" +:+ nl)
          +:+ nl +:+ "Processed at: " +:+ isoformat env (clock st)
          = notification_text key results (isoformat env (clock st))) as ->.
  { unfold notification_text. rewrite message_lines. apply append_assoc. }
  set (text := notification_text _ _ _).
  unfold bind at 1. unfold publish at 1. unfold delivered.
  destruct (SNS_TOPIC_ARN env) as [t|].
  - destruct (sns_accepts env t ("Image Processed: " +:+ key) text) eqn:Hacc;
      eexists _, _; (split; [reflexivity|]);
      cbn [calls logs outbox add_log add_call add_outbox tick fst];
      rewrite ?length_app; cbn [length]; repeat split; lia.
  - eexists _, _. split; [reflexivity|].
    cbn [calls logs outbox add_log add_call add_outbox tick fst].
    repeat split; lia.
Qed.

(** X16. A record of any key without [processed/] on which the iteration
    returns, that is, which is fetched, decoded and processed without
    fault: the destination bucket is configured and the iteration has
    issued exactly five requests, the fetch, the writes of the thumbnail,
    mobile and web variants under [processed/<name>/<key>] and one publish,
    in this order. *)
Theorem processed_record_requests (env : Env) record st st' :
  contains "processed/" (object_key record) = false ->
  handle_record env record st = (Return tt, st') ->
  exists bucket o1 o2 o3 message,
    PROCESSED_BUCKET env = Some bucket
    /\ calls st' = calls st
         ++ [ GetObject (bucket_name record) (object_key record);
              PutObject (Some bucket)
                ("processed/thumbnail/" +:+ object_key record) o1;
              PutObject (Some bucket)
                ("processed/mobile/" +:+ object_key record) o2;
              PutObject (Some bucket)
                ("processed/web/" +:+ object_key record) o3;
              Publish (SNS_TOPIC_ARN env)
                ("Image Processed: " +:+ object_key record) message ].
Proof.
  intros Hskip Hret.
  destruct (handle_record_returned env record st st' Hskip Hret)
    as (o & results & st1 & Hobj & Hrun).
  destruct (handle_record_after_generator env record st o results st1
              Hskip Hobj Hrun) as (st'' & message & Hrec & Hcalls & _).
  rewrite Hret in Hrec. injection Hrec as <-.
  destruct (process_image_returned_bucket env _ _ _ _ _ Hrun) as [bucket Hb].
  destruct (process_image_returned env _ _ _ _ _ Hrun)
    as (im & puts & _ & _ & Hputs_calls & Hputs & _).
  apply variant_puts_SIZES in Hputs as (o1 & o2 & o3 & ->).
  rewrite Hb in Hputs_calls.
  exists bucket, o1, o2, o3, message.
  split; [exact Hb|].
  rewrite Hcalls, Hputs_calls. cbn [calls add_call add_log].
  rewrite <- !app_assoc. reflexivity.
Qed.

(** ** The further properties on concrete runs *)

Lemma returned_value {A} (run : Outcome A * State) (a : A) :
  fst run = Return a -> run = (Return a, snd run).
Proof. destruct run as [out st]; cbn. intros ->. reflexivity. Defined.

Lemma raised_run {A} (run : Outcome A * State) (e : Exn) :
  fst run = Raise e -> run = (Raise e, snd run).
Proof. destruct run as [out st]; cbn. intros ->. reflexivity. Defined.

Lemma event_of_processed_keys_witness :
  exists st',
    lambda_handler (sample_env rgba_2000x1000 true)
      [already_processed; nested_processed] vacation_state
    = (Return success_response, st')
    /\ s3 st' = s3 vacation_state /\ calls st' = [] /\ outbox st' = [].
Proof.
  apply (event_of_processed_keys_changes_nothing (sample_env rgba_2000x1000 true)
           [already_processed; nested_processed] vacation_state).
  repeat constructor.
Defined.

Lemma skipped_record_witness :
  lambda_handler (sample_env rgba_2000x1000 true) [already_processed; vacation]
    vacation_state
  = lambda_handler (sample_env rgba_2000x1000 true) [vacation]
      (add_log (INFO, "Skipping already processed image")
         (add_log (INFO, "Processing image: processed/thumbnail/vacation.png"
                         +:+ " from bucket: " +:+ "uploads") vacation_state)).
Proof.
  apply (skipped_record_does_not_stop_the_loop (sample_env rgba_2000x1000 true)
           already_processed [vacation] vacation_state).
  vm_compute. reflexivity.
Defined.

Lemma returned_prefix_witness :
  lambda_handler (sample_env rgba_2000x1000 true)
    ([already_processed] ++ [vacation]) vacation_state
  = lambda_handler (sample_env rgba_2000x1000 true) [vacation]
      (snd (lambda_handler (sample_env rgba_2000x1000 true) [already_processed]
              vacation_state)).
Proof.
  apply (returned_prefix_then_rest (sample_env rgba_2000x1000 true)
           [already_processed] [vacation] vacation_state success_response).
  apply returned_value. vm_compute. reflexivity.
Defined.

Lemma raised_prefix_witness :
  fst (lambda_handler (sample_env rgba_2000x1000 true) ([missing] ++ [vacation])
         vacation_state)
  = Raise (ClientError "NoSuchKey").
Proof.
  rewrite (raised_prefix_ends_invocation (sample_env rgba_2000x1000 true)
             [missing] [vacation] vacation_state (ClientError "NoSuchKey")
             (snd (lambda_handler (sample_env rgba_2000x1000 true) [missing]
                     vacation_state))).
  - reflexivity.
  - apply raised_run. vm_compute. reflexivity.
Defined.

Lemma uploads_kept_witness :
  s3 (snd (lambda_handler (sample_env rgba_2000x1000 true) [vacation]
             vacation_state)) !! ("uploads", "vacation.png")
  = s3 vacation_state !! ("uploads", "vacation.png").
Proof.
  apply (uploads_are_never_overwritten (sample_env rgba_2000x1000 true)
           [vacation] vacation_state "uploads" "vacation.png").
  vm_compute. reflexivity.
Defined.

Lemma failed_record_witness :
  (exists new,
     calls (snd (handle_record
                   (refusing_env rgba_2000x1000 (Some "processed-bucket") true)
                   vacation vacation_state))
     = calls vacation_state ++ new
     /\ Forall (fun c => is_publish c = false) new)
  /\ outbox (snd (handle_record
                    (refusing_env rgba_2000x1000 (Some "processed-bucket") true)
                    vacation vacation_state)) = outbox vacation_state
  /\ fst (lambda_handler
            (refusing_env rgba_2000x1000 (Some "processed-bucket") true)
            [vacation] vacation_state)
     = Raise (ClientError "AccessDenied").
Proof.
  apply (failed_record_publishes_nothing
           (refusing_env rgba_2000x1000 (Some "processed-bucket") true)
           vacation vacation_state (ClientError "AccessDenied")).
  apply raised_run. vm_compute. reflexivity.
Defined.

Lemma missing_destination_witness :
  exists st' o,
    process_image (refusing_env rgba_2000x1000 None true) [Byte.x89]
      "vacation.png" vacation_state = (Raise ParamValidationError, st')
    /\ calls st' = calls vacation_state
         ++ [PutObject None (dest_key "thumbnail" "vacation.png") o]
    /\ s3 st' = s3 vacation_state
    /\ outbox st' = outbox vacation_state.
Proof.
  apply (missing_destination_bucket (refusing_env rgba_2000x1000 None true)
           [Byte.x89] "vacation.png" vacation_state rgba_2000x1000).
  - reflexivity.
  - reflexivity.
  - intros i. discriminate.
Defined.

Lemma encoder_refusal_witness :
  exists st' msg,
    process_image (refusing_env rgba_2000x1000 (Some "processed-bucket") false)
      [Byte.x89] "vacation.png" vacation_state = (Raise (OSError msg), st')
    /\ calls st' = calls vacation_state
    /\ s3 st' = s3 vacation_state
    /\ outbox st' = outbox vacation_state.
Proof.
  apply (encoder_refusal_sends_nothing
           (refusing_env rgba_2000x1000 (Some "processed-bucket") false)
           [Byte.x89] "vacation.png" vacation_state rgba_2000x1000).
  - reflexivity.
  - intros i. reflexivity.
Defined.

Lemma written_objects_witness :
  exists b buffer now info,
    PROCESSED_BUCKET (sample_env rgba_2000x1000 true) = Some b
    /\ dict_get "mobile" (returned vacation_run []) = Some info
    /\ s3 (snd vacation_run) !! (b, dest_key "mobile" "vacation.png")
       = Some (variant_object buffer (2000, 1000) (info_size info) "mobile" now).
Proof.
  apply (written_objects (sample_env rgba_2000x1000 true)
           [Byte.x89] "vacation.png" vacation_state
           (returned vacation_run []) (snd vacation_run) rgba_2000x1000
           eq_refl vacation_run_returns "mobile" (480, 480)).
  do 2 constructor.
Defined.

Lemma resize_image_shrinks_witness :
  exists ref st' resized,
    resize_image (sample_env rgb_200x200 true) 0%nat (150, 100)
      (holding rgb_200x200) = (Return ref, st')
    /\ heap st' !! ref = Some resized
    /\ 0 < fst (im_size resized) /\ 0 < snd (im_size resized)
    /\ fits (150, 100) (im_size resized)
    /\ fits (200, 200) (im_size resized)
    /\ aspect_within_rounding (200, 200) (im_size resized)
    /\ (fits (150, 100) (200, 200) -> im_size resized = (200, 200))
    /\ s3 st' = ∅ /\ calls st' = [] /\ outbox st' = [].
Proof.
  apply (resize_image_shrinks_to_fit (sample_env rgb_200x200 true) 0%nat
           (150, 100) (holding rgb_200x200) rgb_200x200);
    [reflexivity | cbn; lia ..].
Defined.

Lemma resize_image_flattens_witness :
  exists ref st' resized,
    resize_image (sample_env rgba_2000x1000 true) 0%nat (150, 150)
      (holding rgba_2000x1000) = (Return ref, st')
    /\ heap st' !! ref = Some resized
    /\ ref = 1%nat
    /\ im_mode resized = "RGB"
    /\ heap st' !! 0%nat = Some rgba_2000x1000.
Proof.
  exact (resize_image_flattens_transparency (sample_env rgba_2000x1000 true)
           0%nat (150, 150) (holding rgba_2000x1000) rgba_2000x1000 eq_refl).
Defined.

Lemma processed_record_witness :
  exists bucket o1 o2 o3 message,
    PROCESSED_BUCKET (pillow_like_env rgba_2000x1000) = Some bucket
    /\ calls (snd (handle_record (pillow_like_env rgba_2000x1000) vacation
                     vacation_state))
       = calls vacation_state
         ++ [ GetObject "uploads" "vacation.png";
              PutObject (Some bucket) ("processed/thumbnail/" +:+ "vacation.png") o1;
              PutObject (Some bucket) ("processed/mobile/" +:+ "vacation.png") o2;
              PutObject (Some bucket) ("processed/web/" +:+ "vacation.png") o3;
              Publish (SNS_TOPIC_ARN (pillow_like_env rgba_2000x1000))
                ("Image Processed: " +:+ "vacation.png") message ].
Proof.
  apply (processed_record_requests (pillow_like_env rgba_2000x1000) vacation
           vacation_state
           (snd (handle_record (pillow_like_env rgba_2000x1000) vacation
                   vacation_state))).
  - vm_compute. reflexivity.
  - apply returned_value. vm_compute. reflexivity.
Defined.

Lemma fetch_is_first_witness :
  exists rest,
    calls (snd (handle_record (pillow_like_env rgba_2000x1000) vacation
                  vacation_state))
    = calls vacation_state ++ GetObject "uploads" "vacation.png" :: rest.
Proof.
  apply (proj2 (no_request_iff_processed_substring
                  (pillow_like_env rgba_2000x1000) vacation vacation_state)).
  intros (before & after & Hkey).
  pose proof (contains_append "processed/" before after) as Hc.
  change (object_key vacation) with "vacation.png" in Hkey.
  rewrite <- Hkey in Hc. vm_compute in Hc. discriminate.
Defined.
